(** * serverless-import-config-plugin: the import engine of [src/index.ts]

    A shallow embedding of [ImportConfigPlugin]: documents are JavaScript
    values, the host application (serverless), the file system and Node's
    [path] module are the fields of a [Host] record, and the asynchronous
    functions are split at their [await]s into the frames a microtask queue
    resumes. *)

From Stdlib Require Import String Ascii List Bool Arith Lia DecimalString.
Import ListNotations.
Open Scope string_scope.
Set Warnings "-register-all".

(* ================================================================= *)
(** * Strings *)

Module Str.

Definition nl : string := String (ascii_of_nat 10) EmptyString.

Definition backslash : ascii := ascii_of_nat 92.

Fixpoint drop (n : nat) (s : string) : string :=
  match n, s with
  | O, _ => s
  | S _, EmptyString => EmptyString
  | S n', String _ s' => drop n' s'
  end.

(** [find_sub pat s] is the text before and after the first occurrence of
    [pat] in [s]. *)
Fixpoint find_sub (pat s : string) : option (string * string) :=
  if String.prefix pat s then Some (EmptyString, drop (String.length pat) s)
  else match s with
       | EmptyString => None
       | String c s' =>
           match find_sub pat s' with
           | Some (before, after) => Some (String c before, after)
           | None => None
           end
       end.

(** [GetSubstitution] of ECMAScript for a string pattern (no captures):
    [$$], [$&], [$`] and [$'] are expanded, every other character is
    literal. *)
Fixpoint get_substitution (matched before after template : string) : string :=
  match template with
  | String "$" (String "$" t) => String "$" (get_substitution matched before after t)
  | String "$" (String "&" t) => matched ++ get_substitution matched before after t
  | String "$" (String "`" t) => before ++ get_substitution matched before after t
  | String "$" (String "'" t) => after ++ get_substitution matched before after t
  | String c t => String c (get_substitution matched before after t)
  | EmptyString => EmptyString
  end.

(** [String.prototype.replace] with a string pattern: the first occurrence
    only. *)
Definition replace (s pat replacement : string) : string :=
  match find_sub pat s with
  | Some (before, after) =>
      before ++ get_substitution pat before after replacement ++ after
  | None => s
  end.

(** [s.split(sep)] for a one-character separator. *)
Fixpoint split (sep : ascii) (s : string) : list string :=
  match s with
  | EmptyString => [EmptyString]
  | String c s' =>
      if Ascii.eqb c sep then EmptyString :: split sep s'
      else match split sep s' with
           | x :: xs => String c x :: xs
           | [] => [String c EmptyString]
           end
  end.

(** [parts.join(sep)]. *)
Definition join (sep : string) (parts : list string) : string :=
  String.concat sep parts.

Definition has_char (c : ascii) (s : string) : bool :=
  existsb (Ascii.eqb c) (list_ascii_of_string s).

Definition is_empty (s : string) : bool :=
  match s with EmptyString => true | _ => false end.

End Str.

(* ================================================================= *)
(** * Documents *)

(** A JavaScript value as a configuration document holds it.  An object is
    the list of its own properties in insertion order ([Object.values] and
    the host's property walk depend on it). *)
Inductive value : Type :=
| VUndef
| VNull
| VBool (b : bool)
| VNum (n : nat)
| VStr (s : string)
| VArr (items : list value)
| VObj (fields : list (string * value)).

(** What a call returns or throws; a thrown [Error] is its [message]. *)
Inductive result (A : Type) : Type :=
| Ok (a : A)
| Throw (message : string).
Arguments Ok {A} a.
Arguments Throw {A} message.

Definition rbind {A B} (r : result A) (k : A -> result B) : result B :=
  match r with
  | Ok a => k a
  | Throw m => Throw m
  end.

Fixpoint lookup (k : string) (fields : list (string * value)) : option value :=
  match fields with
  | [] => None
  | (k', v) :: rest => if String.eqb k k' then Some v else lookup k rest
  end.

(** [o.k] on a value that is neither [null] nor [undefined]. *)
Definition get (k : string) (o : value) : value :=
  match o with
  | VObj fields => match lookup k fields with Some v => v | None => VUndef end
  | _ => VUndef
  end.

(** [o.k = v] on an object: an own property keeps its place, a new one
    goes last. *)
Fixpoint assign (k : string) (v : value) (fields : list (string * value))
  : list (string * value) :=
  match fields with
  | [] => [(k, v)]
  | (k', v') :: rest =>
      if String.eqb k k' then (k', v) :: rest else (k', v') :: assign k v rest
  end.

Definition truthy (v : value) : bool :=
  match v with
  | VUndef | VNull => false
  | VBool b => b
  | VNum n => negb (Nat.eqb n 0)
  | VStr s => negb (Str.is_empty s)
  | VArr _ | VObj _ => true
  end.

Fixpoint value_eqb (a b : value) {struct a} : bool :=
  match a, b with
  | VUndef, VUndef => true
  | VNull, VNull => true
  | VBool x, VBool y => Bool.eqb x y
  | VNum x, VNum y => Nat.eqb x y
  | VStr x, VStr y => String.eqb x y
  | VArr xs, VArr ys =>
      (fix go (xs ys : list value) {struct xs} : bool :=
         match xs, ys with
         | [], [] => true
         | x :: xs', y :: ys' => value_eqb x y && go xs' ys'
         | _, _ => false
         end) xs ys
  | VObj xs, VObj ys =>
      (fix go (xs ys : list (string * value)) {struct xs} : bool :=
         match xs, ys with
         | [], [] => true
         | (k, x) :: xs', (k', y) :: ys' =>
             String.eqb k k' && value_eqb x y && go xs' ys'
         | _, _ => false
         end) xs ys
  | _, _ => false
  end.

(* ================================================================= *)
(** * The host *)

(** [fs.Stats], as far as the plugin looks at it. *)
Record Stats : Type := { isDirectory : bool }.

(** One element of what [variables.getMatches] returns. *)
Record Match : Type := { match_text : string; variable : string }.

(** A step of a property path: an object key or an array index. *)
Inductive key : Type :=
| KName (k : string)
| KIndex (i : nat).

(** One element of what [variables.getProperties] returns. *)
Record Property : Type := { prop_path : list key; prop_value : value }.

(** What [require] returns: [module.exports]. *)
Inductive exports : Type :=
| ExportsFunction (f : value -> result value)
| ExportsDefault (f : value -> result value)
| ExportsNotCallable.

(** [serverless.pluginManager]: newer hosts have [loadServicePlugins],
    older ones [resolveServicePlugins] and [addPlugin]. *)
Inductive PluginManager : Type :=
| HasLoadServicePlugins
| HasResolveServicePlugins (resolveServicePlugins : list value -> list (option string)).

Record Host : Type := {
  (* Node's path module *)
  path_sep : ascii;
  path_extname : string -> string;
  path_join : string -> string -> string;
  path_dirname : string -> string;
  path_relative : string -> string -> string;
  path_resolve : string -> string;
  (* fs *)
  REALPATH : string;
  statSync : string -> result Stats;
  (* ./utils *)
  resolveModule : string -> string -> result string;
  (* serverless.variables: populateService(this.options) and
     populateProperty(rawPath), as the promises they return settle;
     value.match(variables.variableSyntax); getMatches(value), None when it
     returns no array; getProperties(config, true, config) *)
  populateService : result unit;
  populateProperty : string -> result string;
  matchesVariableSyntax : string -> bool;
  getMatches : string -> option (list Match);
  getProperties : value -> list Property;
  (* serverless.utils, require, serverless.pluginManager *)
  readFileSync : string -> result value;
  require : string -> result exports;
  pluginManager : PluginManager
}.

(* ================================================================= *)
(** * Constants (index.ts, lines 9-12) *)

Definition SERVERLESS : string := "serverless".
Definition DIRNAME : string := "dirname".
Definition JS_EXTNAME : string := ".js".

(** A JavaScript [Set] iterates in insertion order. *)
Definition CONFIG_EXTNAMES : list string := [".yml"; ".yaml"; JS_EXTNAME].

Definition CONFIG_EXTNAMES_has (ext : string) : bool :=
  existsb (String.eqb ext) CONFIG_EXTNAMES.

(** Modelled from the spec: [tryOrUndefined] of [./utils], which is not among
    the sources: "any failure ... is treated as non-existence - errors are
    swallowed at this layer". *)
Definition tryOrUndefined {A} (r : result A) : option A :=
  match r with
  | Ok a => Some a
  | Throw _ => None
  end.

(* ================================================================= *)
(** * Path resolution (resolvePathToImport, lines 74-119) *)

(** The probes a resolution makes, in the order it makes them. *)
Inductive probe : Type :=
| StatSync (file : string)
| ResolveModule (specifier basedir : string).

(** A computation that probes the host and then returns or throws. *)
Definition Resolver (A : Type) : Type := list probe -> list probe * result A.

Definition ret {A} (a : A) : Resolver A := fun tr => (tr, Ok a).
Definition throw {A} (m : string) : Resolver A := fun tr => (tr, Throw m).
Definition bind {A B} (c : Resolver A) (k : A -> Resolver B) : Resolver B :=
  fun tr => match c tr with
            | (tr', Ok a) => k a tr'
            | (tr', Throw m) => (tr', Throw m)
            end.

Notation "x <- c ;; k" := (bind c (fun x => k))
  (at level 61, c at next level, right associativity).

Section Resolution.
Variable h : Host.

(** [tryOrUndefined(() => statSync(file))] *)
Definition tryStat (file : string) : Resolver (option Stats) :=
  fun tr => ((tr ++ [StatSync file])%list, Ok (tryOrUndefined (statSync h file))).

(** [tryOrUndefined(() => resolveModule(specifier, { basedir }))], tested
    with [if (resolved)]: the empty string is falsy. *)
Definition tryResolveModule (specifier basedir : string) : Resolver (option string) :=
  fun tr =>
    ((tr ++ [ResolveModule specifier basedir])%list,
     Ok (match tryOrUndefined (resolveModule h specifier basedir) with
         | Some resolved => if Str.is_empty resolved then None else Some resolved
         | None => None
         end)).

Definition tried (tries : list string) : string :=
  "Tried: " ++ Str.nl ++ " - " ++ Str.join (Str.nl ++ " - ") tries.

(** lines 91-102 *)
Fixpoint lookInDirectory (pathToImport : string) (extnames tries : list string)
  : Resolver string :=
  match extnames with
  | [] =>
      throw ("Cannot import " ++ pathToImport ++ ": "
             ++ "in the given directory no serverless config can be found" ++ Str.nl
             ++ tried tries)
  | configExtname :: rest =>
      let possibleFile := path_join h pathToImport (SERVERLESS ++ configExtname) in
      stats <- tryStat possibleFile ;;
      match stats with
      | Some _ => ret possibleFile
      | None => lookInDirectory pathToImport rest (tries ++ [possibleFile])%list
      end
  end.

(** lines 106-119 *)
Fixpoint resolveAsModule (pathToImport basedir : string) (extnames tries : list string)
  : Resolver string :=
  match extnames with
  | [] =>
      throw ("Cannot import " ++ pathToImport ++ ": "
             ++ "the given module cannot be resolved" ++ Str.nl
             ++ tried tries)
  | configExtname :: rest =>
      let possibleFile := path_join h pathToImport (SERVERLESS ++ configExtname) in
      resolved <- tryResolveModule possibleFile basedir ;;
      match resolved with
      | Some file => ret file
      | None => resolveAsModule pathToImport basedir rest (tries ++ [possibleFile])%list
      end
  end.

(** lines 74-119: [pathToImport] is the raw path after the host has
    populated its variables. *)
Definition resolvePopulatedPath (pathToImport basedir : string) : Resolver string :=
  if CONFIG_EXTNAMES_has (path_extname h pathToImport) then
    stats <- tryStat pathToImport ;;
    match stats with
    | Some _ => ret pathToImport
    | None =>
        resolved <- tryResolveModule pathToImport basedir ;;
        match resolved with
        | Some file => ret file
        | None =>
            throw ("Cannot import " ++ pathToImport
                   ++ ": the given file doesn't exist")
        end
    end
  else
    stats <- tryStat pathToImport ;;
    match stats with
    | Some {| isDirectory := true |} =>
        lookInDirectory pathToImport CONFIG_EXTNAMES []
    | _ => resolveAsModule pathToImport basedir CONFIG_EXTNAMES []
    end.

End Resolution.

(* ================================================================= *)
(** * Import declarations (getImports, lines 52-57; importConfig, 158-162) *)

(** [config] is never [null] or [undefined] where the plugin calls this:
    the root is the host's service object, and for a fragment line 127 has
    thrown before. *)
Definition getImports (config : value) : list value :=
  let custom := get "custom" config in
  let imports := get "import" (if truthy custom then custom else VObj []) in
  match imports with
  | VArr items => items
  | VStr s => if truthy imports then [imports] else []
  | _ => []
  end.

(** [{ module: pathToImport, inputs } = realOptions] *)
Definition realOptions (options : value) : value * value :=
  match options with
  | VObj _ | VArr _ => (get "module" options, get "inputs" options)
  | _ => (options, VObj [])
  end.

(* ================================================================= *)
(** * Preparing a fragment (prepareImportedConfig, lines 122-155) *)

Section Prepare.
Variable h : Host.

(** [location.split(path.sep).join(path.posix.sep)] *)
Definition toPosixPath (location : string) : string :=
  Str.join "/" (Str.split (path_sep h) location).

(** [path.relative(REALPATH, path.dirname(importPath))] *)
Definition importDirOf (importPath : string) : string :=
  path_relative h (REALPATH h) (path_dirname h importPath).

(** The body of the [forEach] of lines 131-135 on one function. *)
Definition rewriteHandler (importDir : string) (func : value) : result value :=
  match func with
  | VUndef => Throw "Cannot read property 'handler' of undefined"
  | VNull => Throw "Cannot read property 'handler' of null"
  | VObj fields =>
      match lookup "handler" fields with
      | Some (VStr handler) =>
          Ok (VObj (assign "handler"
                      (VStr (toPosixPath (path_join h importDir handler))) fields))
      | _ => Ok func
      end
  | _ => Ok func
  end.

Fixpoint rewriteFields (importDir : string) (fields : list (string * value))
  : result (list (string * value)) :=
  match fields with
  | [] => Ok []
  | (name, func) :: rest =>
      rbind (rewriteHandler importDir func) (fun func' =>
      rbind (rewriteFields importDir rest) (fun rest' =>
      Ok ((name, func') :: rest')))
  end.

Fixpoint rewriteItems (importDir : string) (items : list value)
  : result (list value) :=
  match items with
  | [] => Ok []
  | func :: rest =>
      rbind (rewriteHandler importDir func) (fun func' =>
      rbind (rewriteItems importDir rest) (fun rest' =>
      Ok (func' :: rest')))
  end.

(** lines 127-136.  The functions are mutated in place, so the fragment
    holds the rewritten ones afterwards. *)
Definition rewriteHandlers (importDir : string) (config : value) : result value :=
  match config with
  | VUndef => Throw "Cannot destructure property 'functions' of undefined"
  | VNull => Throw "Cannot destructure property 'functions' of null"
  | VObj fields =>
      match lookup "functions" fields with
      | Some (VObj functions) =>
          rbind (rewriteFields importDir functions) (fun functions' =>
          Ok (VObj (assign "functions" (VObj functions') fields)))
      | Some (VArr functions) =>
          rbind (rewriteItems importDir functions) (fun functions' =>
          Ok (VObj (assign "functions" (VArr functions') fields)))
      | _ => Ok config
      end
  | _ => Ok config
  end.

End Prepare.

(** ** lodash.set with an array path *)

Definition key_name (k : key) : string :=
  match k with
  | KName s => s
  | KIndex i => NilEmpty.string_of_uint (Nat.to_uint i)
  end.

Definition get_key (k : key) (o : value) : value :=
  match o, k with
  | VObj _, _ => get (key_name k) o
  | VArr items, KIndex i => nth i items VUndef
  | _, _ => VUndef
  end.

Fixpoint put_item (i : nat) (v : value) (items : list value) : list value :=
  match i, items with
  | O, [] => [v]
  | O, _ :: rest => v :: rest
  | S i', [] => VUndef :: put_item i' v []
  | S i', x :: rest => x :: put_item i' v rest
  end.

(** A primitive is not assigned to; a property named by a string on an
    array is outside of what a document read from a file holds. *)
Definition put_key (k : key) (v : value) (o : value) : value :=
  match o, k with
  | VObj fields, _ => VObj (assign (key_name k) v fields)
  | VArr items, KIndex i => VArr (put_item i v items)
  | _, _ => o
  end.

Definition container_for (rest : list key) (child : value) : value :=
  match child with
  | VObj _ | VArr _ => child
  | _ => match rest with
         | KIndex _ :: _ => VArr []
         | _ => VObj []
         end
  end.

Fixpoint set (path : list key) (v : value) (o : value) : value :=
  match path with
  | [] => o
  | [k] => put_key k v o
  | k :: rest => put_key k (set rest v (container_for rest (get_key k o))) o
  end.

Section Dirname.
Variable h : Host.

(** lines 148-153, for one property: every [dirname] match replaces in the
    property's value as it was read, and sets the result. *)
Definition substituteMatches (importDir : string) (path : list key) (text : string)
    (matches : list Match) (config : value) : value :=
  fold_left
    (fun config m => set path (VStr (Str.replace text (match_text m) importDir)) config)
    (filter (fun m => String.eqb (variable m) DIRNAME) matches)
    config.

(** lines 140-154, for one property. *)
Definition substituteProperty (importDir : string) (config : value) (property : Property)
  : value :=
  match prop_value property with
  | VStr text =>
      if matchesVariableSyntax h text then
        match getMatches h text with
        | Some matches =>
            substituteMatches importDir (prop_path property) text matches config
        | None => config
        end
      else config
  | _ => config
  end.

(** lines 138-154; [loadVariableSyntax] sets the syntax the host matches
    with. *)
Definition substituteDirname (importDir : string) (config : value) : value :=
  fold_left (substituteProperty importDir) (getProperties h config) config.

(** prepareImportedConfig, lines 122-155 *)
Definition prepareImportedConfig (importPath : string) (config : value) : result value :=
  let importDir := importDirOf h importPath in
  rbind (rewriteHandlers h importDir config) (fun config' =>
  Ok (substituteDirname importDir config')).

(** lines 169-176 *)
Definition loadConfig (importPath : string) (inputs : value) : result value :=
  if String.eqb (path_extname h importPath) JS_EXTNAME then
    rbind (require h (path_resolve h importPath)) (fun importExports =>
    match importExports with
    | ExportsFunction importFunction => importFunction inputs
    | ExportsDefault importFunction => importFunction inputs
    | ExportsNotCallable => Throw "importFunction is not a function"
    end)
  else readFileSync h importPath.

(** The message of the error of lines 180-182. *)
Definition cannotImport (importPath cause : string) : string :=
  "Error: Cannot import " ++ importPath ++ Str.nl ++ "Cause: " ++ cause.

End Dirname.

(* ================================================================= *)
(** * Merging and plugins *)

Fixpoint upsert (k : string) (f : value -> value) (v : value)
    (fields : list (string * value)) : list (string * value) :=
  match fields with
  | [] => [(k, v)]
  | (k', old) :: rest =>
      if String.eqb k k' then (k', f old) :: rest else (k', old) :: upsert k f v rest
  end.

(** Modelled from the spec: the merge of [./merge], which is not among the
    sources: "deep-merges source into target in place; object keys recurse,
    arrays concatenate, scalars are overwritten by source's value". *)
Fixpoint mergeFrom (source target : value) {struct source} : value :=
  match source, target with
  | VObj s, VObj t =>
      VObj ((fix go (s t : list (string * value)) {struct s} : list (string * value) :=
               match s with
               | [] => t
               | (k, v) :: s' => go s' (upsert k (mergeFrom v) v t)
               end) s t)
  | VArr s, VArr t => VArr (t ++ s)%list
  | _, _ => source
  end.

(** [service.plugins], an array of plugin names or absent. *)
Definition pluginsOf (service : value) : list value :=
  match get "plugins" service with
  | VArr items => items
  | _ => []
  end.

(** lodash.difference: the elements of [array] that are not among
    [values], in the order of [array].  Plugin names are strings
    ([originalPlugins: string[]]), which SameValueZero compares as
    [value_eqb] does. *)
Definition difference (array values : list value) : list value :=
  filter (fun x => negb (existsb (value_eqb x) values)) array.

(** [merge(target, source)] *)
Definition merge (target source : value) : value := mergeFrom source target.

(* ================================================================= *)
(** * Promises and the microtask queue *)

(** JavaScript runs an asynchronous function up to its first [await] when
    it is called, and the rest of it in a later microtask, after the
    awaited promise has settled.  The frames below are those rests; they are
    resumed first in, first out.  A promise of the host is taken to settle
    with the call that returns it. *)

Definition pid : Type := nat.

Inductive outcome : Type :=
| Fulfilled (v : value)
| Rejected (message : string).

(** A pending promise counts the elements a [Promise.all] still waits for. *)
Inductive pstate : Type :=
| Pending (remaining : nat)
| Settled (o : outcome).

(** What runs when an awaited promise settles: the rest of an asynchronous
    function after one of its [await]s, or a reaction of [Promise.all] or
    of [catch].  [self] is the promise of the suspended call. *)
Inductive frame : Type :=
| AfterPopulateService (rawPath : value) (basedir : string) (self : pid)  (* line 69 *)
| AfterPopulateProperty (basedir : string) (self : pid)                   (* line 71 *)
| AfterResolvePathToImport (inputs : value) (self : pid)                  (* line 164 *)
| AllElement (all : pid)                                                  (* line 63 *)
| AfterPromiseAll (self : pid)                                            (* line 63 *)
| CatchHandler (self : pid).                                              (* lines 45-48 *)

(** What the plugin does to the outside, in the order it does it. *)
Inductive event : Type :=
| CliLog (line : string)
| ConsoleError (message : string)
| Resolving (pathToImport basedir : string) (probes : list probe)
| Merged (importPath : string)
| LoadServicePlugins (names : list value)
| ResolveServicePlugins (names : list value)
| AddPlugin (instance : string).

Record World : Type := {
  service : value;
  events : list event;
  promises : list pstate;
  waiting : list (pid * frame);
  queue : list (frame * outcome)
}.

Definition emit (e : event) (w : World) : World :=
  {| service := service w; events := (events w ++ [e])%list;
     promises := promises w; waiting := waiting w; queue := queue w |}.

Definition enqueue (f : frame) (o : outcome) (w : World) : World :=
  {| service := service w; events := events w;
     promises := promises w; waiting := waiting w;
     queue := (queue w ++ [(f, o)])%list |}.

Definition newPromise (st : pstate) (w : World) : pid * World :=
  (List.length (promises w),
   {| service := service w; events := events w;
      promises := (promises w ++ [st])%list; waiting := waiting w;
      queue := queue w |}).

Fixpoint store (p : pid) (st : pstate) (table : list pstate) : list pstate :=
  match p, table with
  | _, [] => []
  | O, _ :: rest => st :: rest
  | S p', x :: rest => x :: store p' st rest
  end.

Definition waitsFor (p : pid) (entry : pid * frame) : bool := Nat.eqb (fst entry) p.

(** A pending promise settles once; the frames waiting for it are queued
    in the order they began to wait. *)
Definition settle (p : pid) (o : outcome) (w : World) : World :=
  match nth_error (promises w) p with
  | Some (Pending _) =>
      {| service := service w; events := events w;
         promises := store p (Settled o) (promises w);
         waiting := filter (fun entry => negb (waitsFor p entry)) (waiting w);
         queue := (queue w
                   ++ map (fun entry => (snd entry, o))
                          (filter (waitsFor p) (waiting w)))%list |}
  | _ => w
  end.

(** [await p], the rest of the function being [f]. *)
Definition await (p : pid) (f : frame) (w : World) : World :=
  match nth_error (promises w) p with
  | Some (Settled o) => enqueue f o w
  | _ => {| service := service w; events := events w;
            promises := promises w;
            waiting := (waiting w ++ [(p, f)])%list;
            queue := queue w |}
  end.

(** One element of a [Promise.all] has settled. *)
Definition allElement (all : pid) (o : outcome) (w : World) : World :=
  match o, nth_error (promises w) all with
  | Fulfilled _, Some (Pending (S (S n))) =>
      {| service := service w; events := events w;
         promises := store all (Pending (S n)) (promises w);
         waiting := waiting w; queue := queue w |}
  | Fulfilled _, Some (Pending _) => settle all (Fulfilled VUndef) w
  | Rejected m, _ => settle all (Rejected m) w
  | _, _ => w
  end.

Definition promiseAll (ps : list pid) (w : World) : pid * World :=
  let (all, w) :=
    newPromise (match ps with
                | [] => Settled (Fulfilled VUndef)
                | _ => Pending (List.length ps)
                end) w in
  (all, fold_left (fun w p => await p (AllElement all) w) ps w).

Definition outcomeOf (r : result string) : outcome :=
  match r with
  | Ok s => Fulfilled (VStr s)
  | Throw m => Rejected m
  end.

(* ================================================================= *)
(** * The asynchronous functions, up to their first await *)

Section Plugin.
Variable h : Host.

(** resolvePathToImport, lines 66-69.  What the host's [populateService]
    does to the document is the host's and is left out; the function goes
    on in a later microtask. *)
Definition resolvePathToImport (rawPath : value) (basedir : string) (w : World)
  : pid * World :=
  let (self, w) := newPromise (Pending 0) w in
  (self,
   enqueue (AfterPopulateService rawPath basedir self)
     (match populateService h with
      | Ok _ => Fulfilled VUndef
      | Throw m => Rejected m
      end) w).

(** importConfig, lines 157-164 *)
Definition importConfig (options : value) (basedir : string) (w : World)
  : pid * World :=
  let (self, w) := newPromise (Pending 0) w in
  let (pathToImport, inputs) := realOptions options in
  let (importPath, w) := resolvePathToImport pathToImport basedir w in
  (self, await importPath (AfterResolvePathToImport inputs self) w).

(** [this.getImports(config).map(...)], lines 60-62 *)
Fixpoint mapImportConfig (imports : list value) (basedir : string) (w : World)
  : list pid * World :=
  match imports with
  | [] => ([], w)
  | pathToImport :: rest =>
      let (p, w) := importConfig pathToImport basedir w in
      let (ps, w) := mapImportConfig rest basedir w in
      (p :: ps, w)
  end.

(** importConfigs, lines 59-63 *)
Definition importConfigs (config : value) (basedir : string) (w : World)
  : pid * World :=
  let (self, w) := newPromise (Pending 0) w in
  let (importPromises, w) := mapImportConfig (getImports config) basedir w in
  let (all, w) := promiseAll importPromises w in
  (self, await all (AfterPromiseAll self) w).

Definition mergeIntoService (importPath : string) (config : value) (w : World) : World :=
  emit (Merged importPath)
    {| service := merge (service w) config; events := events w;
       promises := promises w; waiting := waiting w; queue := queue w |}.

(** importConfig, lines 165-184, once the import path is known. *)
Definition importResolved (importPath : string) (inputs : value) (self : pid)
    (w : World) : World :=
  let w := emit (CliLog ("Importing " ++ importPath)) w in
  match rbind (loadConfig h importPath inputs) (prepareImportedConfig h importPath) with
  | Ok config =>
      (* line 178: the promise of the nested imports is dropped *)
      let (_, w) := importConfigs config (path_dirname h importPath) w in
      (* line 184 *)
      settle self (Fulfilled VUndef) (mergeIntoService importPath config w)
  | Throw cause => settle self (Rejected (cannotImport importPath cause)) w
  end.

(** What a frame does when the promise it awaited has settled.  Line 72
    resets the options of the host's variables, which nothing here reads. *)
Definition resume (f : frame) (o : outcome) (w : World) : World :=
  match f, o with
  | AfterPopulateService (VStr rawPath) basedir self, Fulfilled _ =>
      enqueue (AfterPopulateProperty basedir self)
        (outcomeOf (populateProperty h rawPath)) w
  | AfterPopulateService rawPath basedir self, Fulfilled _ =>
      enqueue (AfterPopulateProperty basedir self) (Fulfilled rawPath) w
  | AfterPopulateProperty basedir self, Fulfilled (VStr pathToImport) =>
      let (probes, r) := resolvePopulatedPath h pathToImport basedir [] in
      settle self (outcomeOf r) (emit (Resolving pathToImport basedir probes) w)
  | AfterPopulateProperty _ self, Fulfilled _ =>
      settle self (Rejected "The 'path' argument must be of type string") w
  | AfterResolvePathToImport inputs self, Fulfilled (VStr importPath) =>
      importResolved importPath inputs self w
  | AfterResolvePathToImport _ self, Fulfilled _ =>
      (* not reached: resolvePathToImport fulfils with a string *)
      settle self (Rejected "The 'path' argument must be of type string") w
  | AllElement all, _ => allElement all o w
  | AfterPromiseAll self, Fulfilled _ => settle self (Fulfilled VUndef) w
  | CatchHandler self, Rejected error =>
      settle self (Rejected error) (emit (ConsoleError error) w)
  | CatchHandler self, Fulfilled v => settle self (Fulfilled v) w
  | AfterPopulateService _ _ self, Rejected m
  | AfterPopulateProperty _ self, Rejected m
  | AfterResolvePathToImport _ self, Rejected m
  | AfterPromiseAll self, Rejected m => settle self (Rejected m) w
  end.

(** The event loop runs the first queued frame. *)
Definition step (w : World) : option World :=
  match queue w with
  | [] => None
  | (f, o) :: rest =>
      Some (resume f o
              {| service := service w; events := events w;
                 promises := promises w; waiting := waiting w; queue := rest |})
  end.

Fixpoint run (fuel : nat) (w : World) : World :=
  match fuel with
  | O => w
  | S fuel' => match step w with
               | Some w' => run fuel' w'
               | None => w
               end
  end.

(** loadImportedPlugins, lines 187-199 *)
Definition loadImportedPlugins (originalPlugins : list value) (w : World) : World :=
  let newPlugins := difference (pluginsOf (service w)) originalPlugins in
  match pluginManager h with
  | HasLoadServicePlugins => emit (LoadServicePlugins newPlugins) w
  | HasResolveServicePlugins resolveServicePlugins =>
      fold_left
        (fun w plugin => match plugin with
                         | Some instance => emit (AddPlugin instance) w
                         | None => w
                         end)
        (resolveServicePlugins newPlugins)
        (emit (ResolveServicePlugins newPlugins) w)
  end.

Definition initial (service0 : value) : World :=
  {| service := service0; events := []; promises := []; waiting := []; queue := [] |}.

(** The constructor, lines 45-48: the promise of [importConfigs], the one
    [catch] derives from it, and the world they leave. *)
Definition startImports (service0 : value) : (pid * pid) * World :=
  let (imports, w) := importConfigs service0 (REALPATH h) (initial service0) in
  let (caught, w) := newPromise (Pending 0) w in
  ((imports, caught), await imports (CatchHandler caught) w).

(** Line 43, [service.plugins?.slice() ?? []]: [undefined] and [null] give
    the empty list, an array its copy and a string itself, of which
    [difference] takes no element; a boolean, a number or an object (the
    host's [{ localPath, modules }] form) has no [slice], and the call
    throws. *)
Definition sliceable (plugins : value) : bool :=
  match plugins with
  | VBool _ | VNum _ | VObj _ => false
  | _ => true
  end.

Definition originalPluginsOf (service0 : value) : result (list value) :=
  if sliceable (get "plugins" service0) then Ok (pluginsOf service0)
  else Throw "this.serverless.service.plugins.slice is not a function".

(** The constructor, lines 40-50: it throws at line 43, or starts the
    imports and hands the plugins over. *)
Definition construct (service0 : value) : result World :=
  rbind (originalPluginsOf service0) (fun originalPlugins =>
  Ok (loadImportedPlugins originalPlugins (snd (startImports service0)))).

(** The world the constructor leaves: when it has thrown, nothing was
    started and nothing was handed over. *)
Definition constructor (service0 : value) : World :=
  match construct service0 with
  | Ok w => w
  | Throw _ => initial service0
  end.

(** The activation: the constructor, then the event loop. *)
Definition activate (fuel : nat) (service0 : value) : World :=
  run fuel (constructor service0).

End Plugin.

(** The plugin lists handed to the plugin manager. *)
Definition handedOver (evs : list event) : list (list value) :=
  flat_map (fun e => match e with
                     | LoadServicePlugins names | ResolveServicePlugins names => [names]
                     | _ => []
                     end) evs.

Definition outcomeIn (w : World) (p : pid) : option pstate := nth_error (promises w) p.

(* ================================================================= *)
(** * A POSIX host to run the plugin on *)

(** Node's [path.posix], for the paths of the examples. *)
Module Posix.

Definition isAbsolute (p : string) : bool :=
  match p with
  | String "/" _ => true
  | _ => false
  end.

Definition endsWithSlash (p : string) : bool :=
  match rev (list_ascii_of_string p) with
  | c :: _ => Ascii.eqb c "/"
  | [] => false
  end.

(** The segments of a path without [""] and ["."], a [".."] taking the
    segment before it away; [acc] is the result so far, last segment
    first. *)
Fixpoint normalizeSegments (allowAbove : bool) (segs acc : list string) : list string :=
  match segs with
  | [] => rev acc
  | seg :: rest =>
      if String.eqb seg "" || String.eqb seg "." then
        normalizeSegments allowAbove rest acc
      else if String.eqb seg ".." then
        match acc with
        | [] => normalizeSegments allowAbove rest (if allowAbove then [".."] else [])
        | top :: acc' =>
            if String.eqb top ".."
            then normalizeSegments allowAbove rest (".." :: acc)
            else normalizeSegments allowAbove rest acc'
        end
      else normalizeSegments allowAbove rest (seg :: acc)
  end.

Definition normalize (p : string) : string :=
  if Str.is_empty p then "." else
  let body := Str.join "/" (normalizeSegments (negb (isAbsolute p)) (Str.split "/" p) []) in
  let tail := if endsWithSlash p then "/" else "" in
  if Str.is_empty body then
    (if isAbsolute p then "/" else "." ++ tail)
  else (if isAbsolute p then "/" else "") ++ body ++ tail.

Definition join (a b : string) : string :=
  if Str.is_empty a then normalize b
  else if Str.is_empty b then normalize a
  else normalize (a ++ "/" ++ b).

Fixpoint dropWhile (f : ascii -> bool) (l : list ascii) : list ascii :=
  match l with
  | c :: rest => if f c then dropWhile f rest else l
  | [] => []
  end.

Fixpoint takeWhile (f : ascii -> bool) (l : list ascii) : list ascii :=
  match l with
  | c :: rest => if f c then c :: takeWhile f rest else []
  | [] => []
  end.

Definition isSlash (c : ascii) : bool := Ascii.eqb c "/".
Definition isDot (c : ascii) : bool := Ascii.eqb c ".".

Definition dirname (p : string) : string :=
  match list_ascii_of_string p with
  | [] => "."
  | first :: rest =>
      let root := if isSlash first then "/" else "." in
      match dropWhile (fun c => negb (isSlash c)) (dropWhile isSlash (rev rest)) with
      | [] => root
      | _ :: before =>
          match before with
          | [] => if isSlash first then "//" else String first ""
          | _ => string_of_list_ascii (first :: rev before)
          end
      end
  end.

(** The last segment of a path, trailing slashes apart, last character
    first. *)
Definition basenameReversed (p : string) : list ascii :=
  takeWhile (fun c => negb (isSlash c))
    (dropWhile isSlash (rev (list_ascii_of_string p))).

Definition extname (p : string) : string :=
  let base := basenameReversed p in
  let ext := takeWhile (fun c => negb (isDot c)) base in
  match dropWhile (fun c => negb (isDot c)) base with
  | [] => ""
  | _ :: [] => ""
  | _ :: stem =>
      if forallb isDot stem && Nat.eqb (List.length stem) 1
         && Nat.eqb (List.length ext) 0
      then ""
      else string_of_list_ascii ("."%char :: rev ext)
  end.

Definition absoluteSegments (cwd p : string) : list string :=
  normalizeSegments false
    (Str.split "/" (if isAbsolute p then p else cwd ++ "/" ++ p)) [].

Definition resolve (cwd p : string) : string :=
  "/" ++ Str.join "/" (absoluteSegments cwd p).

Fixpoint relativeSegments (from to : list string) : list string :=
  match from, to with
  | f :: from', t :: to' =>
      if String.eqb f t then relativeSegments from' to'
      else (map (fun _ => "..") from ++ to)%list
  | _, _ => (map (fun _ => "..") from ++ to)%list
  end.

Definition relative (cwd from to : string) : string :=
  Str.join "/" (relativeSegments (absoluteSegments cwd from) (absoluteSegments cwd to)).

End Posix.

(** The host's default variable syntax, for the examples: a placeholder
    is [${...}] around one or more characters other than [$], [{] and [}];
    its variable is its content without blanks. *)
Module Variables.

Fixpoint body (s : string) : option string :=
  match s with
  | EmptyString => None
  | String "}" _ => Some EmptyString
  | String "$" _ | String "{" _ => None
  | String c rest =>
      match body rest with
      | Some content => Some (String c content)
      | None => None
      end
  end.

Fixpoint withoutBlanks (s : string) : string :=
  match s with
  | EmptyString => EmptyString
  | String " " rest => withoutBlanks rest
  | String c rest => String c (withoutBlanks rest)
  end.

Definition placeholderAt (s : string) : list Match :=
  match s with
  | String "$" (String "{" inner) =>
      match body inner with
      | Some (String c content) =>
          [{| match_text := "${" ++ String c content ++ "}";
              variable := withoutBlanks (String c content) |}]
      | _ => []
      end
  | _ => []
  end.

Fixpoint scan (s : string) : list Match :=
  match s with
  | EmptyString => []
  | String _ rest => (placeholderAt s ++ scan rest)%list
  end.

Definition getMatches (s : string) : option (list Match) :=
  match scan s with
  | [] => None
  | matches => Some matches
  end.

Definition matchesVariableSyntax (s : string) : bool :=
  match scan s with
  | [] => false
  | _ => true
  end.

(** The leaves of a document with their paths, in document order. *)
Fixpoint properties (context : list key) (current : value) : list Property :=
  match current with
  | VArr items =>
      (fix each (i : nat) (items : list value) : list Property :=
         match items with
         | [] => []
         | item :: rest =>
             (properties (context ++ [KIndex i]) item ++ each (S i) rest)%list
         end) 0 items
  | VObj fields =>
      (fix each (fields : list (string * value)) : list Property :=
         match fields with
         | [] => []
         | (k, v) :: rest =>
             (properties (context ++ [KName k]) v ++ each rest)%list
         end) fields
  | _ => [{| prop_path := context; prop_value := current |}]
  end.

End Variables.

(** What is at a path of the example file system. *)
Inductive file : Type :=
| Directory
| Document (config : result value)
| Script (module : result exports).

Record Disk : Type := {
  cwd : string;
  files : list (string * file);              (* by absolute path *)
  modules : list (string * string * string)  (* specifier, basedir, file *)
}.

Fixpoint fileAt (p : string) (fs : list (string * file)) : option file :=
  match fs with
  | [] => None
  | (q, f) :: rest => if String.eqb p q then Some f else fileAt p rest
  end.

Fixpoint moduleAt (specifier basedir : string) (ms : list (string * string * string))
  : result string :=
  match ms with
  | [] => Throw ("Cannot find module '" ++ specifier ++ "' from '" ++ basedir ++ "'")
  | (s, b, f) :: rest =>
      if String.eqb s specifier && String.eqb b basedir then Ok f
      else moduleAt specifier basedir rest
  end.

Definition posixHost (d : Disk) (pm : PluginManager) : Host :=
  {| path_sep := "/"%char;
     path_extname := Posix.extname;
     path_join := Posix.join;
     path_dirname := Posix.dirname;
     path_relative := Posix.relative (cwd d);
     path_resolve := Posix.resolve (cwd d);
     REALPATH := cwd d;
     statSync := fun p =>
       match fileAt (Posix.resolve (cwd d) p) (files d) with
       | Some Directory => Ok {| isDirectory := true |}
       | Some _ => Ok {| isDirectory := false |}
       | None => Throw ("ENOENT: no such file or directory, stat '" ++ p ++ "'")
       end;
     resolveModule := fun specifier basedir => moduleAt specifier basedir (modules d);
     populateService := Ok tt;
     populateProperty := fun rawPath => Ok rawPath;
     matchesVariableSyntax := Variables.matchesVariableSyntax;
     getMatches := Variables.getMatches;
     getProperties := Variables.properties [];
     readFileSync := fun p =>
       match fileAt (Posix.resolve (cwd d) p) (files d) with
       | Some (Document config) => config
       | _ => Throw ("ENOENT: no such file or directory, open '" ++ p ++ "'")
       end;
     require := fun p =>
       match fileAt p (files d) with
       | Some (Script module) => module
       | _ => Throw ("Cannot find module '" ++ p ++ "'")
       end;
     pluginManager := pm |}.

(* ================================================================= *)
(** * What the claims about resolution say, in the spec's words *)

(** "a direct file-system existence probe" *)
Definition existsOnDisk (h : Host) (file : string) : bool :=
  match statSync h file with
  | Ok _ => true
  | Throw _ => false
  end.

(** "attempt module resolution from baseDir" *)
Definition resolvesFrom (h : Host) (basedir specifier : string) : option string :=
  match resolveModule h specifier basedir with
  | Ok file => if Str.is_empty file then None else Some file
  | Throw _ => None
  end.

(** [serverless.yml], [serverless.yaml], [serverless.js] inside [dir]. *)
Definition serverlessFiles (h : Host) (dir : string) : list string :=
  [path_join h dir "serverless.yml";
   path_join h dir "serverless.yaml";
   path_join h dir "serverless.js"].

(** The candidates that are tried when they are tried in order until one
    is good. *)
Fixpoint attempted {A} (good : A -> bool) (candidates : list A) : list A :=
  match candidates with
  | [] => []
  | c :: rest => c :: (if good c then [] else attempted good rest)
  end.

Fixpoint firstResolved (h : Host) (basedir : string) (candidates : list string)
  : option string :=
  match candidates with
  | [] => None
  | c :: rest =>
      match resolvesFrom h basedir c with
      | Some file => Some file
      | None => firstResolved h basedir rest
      end
  end.

Definition isResolved (h : Host) (basedir specifier : string) : bool :=
  match resolvesFrom h basedir specifier with
  | Some _ => true
  | None => false
  end.

(** C5 as the spec states it, for one path: an existing directory is
    probed for the three files in order. *)
Definition directoryClaim (h : Host) (pathToImport basedir : string) : Prop :=
  statSync h pathToImport = Ok {| isDirectory := true |} ->
  let candidates := serverlessFiles h pathToImport in
  resolvePopulatedPath h pathToImport basedir [] =
    (StatSync pathToImport :: map StatSync (attempted (existsOnDisk h) candidates),
     match find (existsOnDisk h) candidates with
     | Some file => Ok file
     | None =>
         Throw ("Cannot import " ++ pathToImport ++ ": "
                ++ "in the given directory no serverless config can be found" ++ Str.nl
                ++ "Tried: " ++ Str.nl
                ++ " - " ++ path_join h pathToImport "serverless.yml" ++ Str.nl
                ++ " - " ++ path_join h pathToImport "serverless.yaml" ++ Str.nl
                ++ " - " ++ path_join h pathToImport "serverless.js")
     end).

(** A project whose directory [conf.js] holds a [serverless.yml]. *)
Definition dottedDirectoryDisk : Disk :=
  {| cwd := "/proj";
     files := [("/proj/conf.js", Directory);
               ("/proj/conf.js/serverless.yml", Document (Ok (VObj [])))];
     modules := [] |}.

(** A project with the fragment directory [fragments/a]. *)
Definition fragmentDoc : value :=
  VObj [("custom", VObj [("import", VStr "./nested.yml");
                         ("owner", VStr "fragment");
                         ("assets", VStr "${dirname}/in:${dirname}/out");
                         ("stage", VStr "${dirname}/${opt:stage}")]);
        ("plugins", VArr [VStr "fragment-plugin"]);
        ("functions",
         VObj [("hello", VObj [("handler", VStr "src/handler.func")]);
               ("other", VObj [("timeout", VNum 3)])])].

Definition nestedDoc : value :=
  VObj [("custom", VObj [("owner", VStr "nested")])].

Definition projectDisk : Disk :=
  {| cwd := "/proj";
     files := [("/proj/fragments/a", Directory);
               ("/proj/fragments/a/serverless.yml", Document (Ok fragmentDoc));
               ("/proj/fragments/a/nested.yml", Document (Ok nestedDoc));
               ("/proj/fragments/empty", Directory);
               ("/proj/fragments/b.yml", Document (Ok (VObj [])));
               ("/proj/node_modules/shared/serverless.yaml", Document (Ok (VObj [])));
               ("/proj/factory.js",
                Script (Ok (ExportsDefault (fun inputs =>
                              Ok (VObj [("custom", VObj [("given", inputs)])])))));
               ("/proj/broken.js", Script (Ok ExportsNotCallable))];
     modules := [("./nested.yml", "fragments/a", "/proj/fragments/a/nested.yml");
                 ("shared/serverless.yaml", "/proj",
                  "/proj/node_modules/shared/serverless.yaml");
                 ("shared.yml", "/proj", "/proj/node_modules/shared.yml")] |}.

Definition projectHost : Host := posixHost projectDisk HasLoadServicePlugins.

Definition projectRoot : value :=
  VObj [("plugins", VArr [VStr "serverless-import-config-plugin"]);
        ("custom", VObj [("import", VArr [VStr "fragments/a"])])].

(* ================================================================= *)
(** * Further definitions the statements use *)




(** What loadImportedPlugins does with the plugin manager. *)
Definition pluginEvents (h : Host) (newPlugins : list value) : list event :=
  match pluginManager h with
  | HasLoadServicePlugins => [LoadServicePlugins newPlugins]
  | HasResolveServicePlugins resolveServicePlugins =>
      ResolveServicePlugins newPlugins
        :: flat_map (fun plugin => match plugin with
                                   | Some instance => [AddPlugin instance]
                                   | None => []
                                   end) (resolveServicePlugins newPlugins)
  end.

Definition nullish (v : value) : bool :=
  match v with
  | VUndef | VNull => true
  | _ => false
  end.

(** Every [from] of a string made a [to]. *)
Fixpoint translate (from to : ascii) (s : string) : string :=
  match s with
  | EmptyString => EmptyString
  | String c rest => String (if Ascii.eqb c from then to else c) (translate from to rest)
  end.

(** What C8 says of one function, before and after. *)
Definition handlerRewritten (h : Host) (importDir : string) (func func' : value) : Prop :=
  match get "handler" func with
  | VStr handler =>
      get "handler" func' = VStr (toPosixPath h (path_join h importDir handler))
      /\ (forall k, k <> "handler" -> get k func' = get k func)
  | _ => func' = func
  end.

(** [w'] has the document and the events of [w]. *)
Definition sameOutside (w w' : World) : Prop :=
  service w' = service w /\ events w' = events w.

(** [evs] hands nothing to the plugin manager. *)
Definition handsNothing (evs : list event) : Prop := handedOver evs = [].

(** A host whose [path] answers as [path.win32] does for the fragment
    [fragments\a\serverless.yml] of a project. *)
Definition backslashHost : Host :=
  {| path_sep := Str.backslash;
     path_extname := Posix.extname;
     path_join := fun a b =>
       translate "/" Str.backslash (a ++ String Str.backslash "" ++ b);
     path_dirname := fun _ => "C:\proj\fragments\a";
     path_relative := fun _ _ => "fragments\a";
     path_resolve := fun p => "C:\proj" ++ String Str.backslash p;
     REALPATH := "C:\proj";
     statSync := statSync projectHost;
     resolveModule := resolveModule projectHost;
     populateService := Ok tt;
     populateProperty := populateProperty projectHost;
     matchesVariableSyntax := Variables.matchesVariableSyntax;
     getMatches := Variables.getMatches;
     getProperties := Variables.properties [];
     readFileSync := readFileSync projectHost;
     require := require projectHost;
     pluginManager := HasLoadServicePlugins |}.

(** A project whose fragment imports a file that does not exist. *)
Definition danglingFragmentDoc : value :=
  VObj [("custom", VObj [("import", VStr "./missing.yml")])].

Definition danglingDisk : Disk :=
  {| cwd := "/proj";
     files := [("/proj/fragments/a", Directory);
               ("/proj/fragments/a/serverless.yml", Document (Ok danglingFragmentDoc))];
     modules := [] |}.

Definition danglingHost : Host := posixHost danglingDisk HasLoadServicePlugins.

Definition missingImportRoot : value :=
  VObj [("custom", VObj [("import", VStr "missing.yml")])].

(** The resolutions that wait in the queue to begin: the raw path of each
    and the base directory it is to be resolved from. *)
Definition isResolution (f : frame) : bool :=
  match f with
  | AfterPopulateService _ _ _ => true
  | _ => false
  end.

Definition resolutionsQueued (q : list (frame * outcome)) : list (value * string) :=
  flat_map (fun entry => match fst entry with
                         | AfterPopulateService rawPath basedir _ => [(rawPath, basedir)]
                         | _ => []
                         end) q.

(** No frame that waits for a promise is the beginning of a resolution. *)
Definition noResolutionWaits (w : World) : Prop :=
  forallb (fun entry => negb (isResolution (snd entry))) (waiting w) = true.

(** From [w] to [w'] the resolutions [added] were queued, in that order. *)
Definition queuesResolutions (added : list (value * string)) (w w' : World) : Prop :=
  resolutionsQueued (queue w') = (resolutionsQueued (queue w) ++ added)%list
  /\ (noResolutionWaits w -> noResolutionWaits w').

(** C8 as the spec states it, for one fragment with its functions: the
    fragment is prepared, and in what is prepared every function has its
    handler rewritten with the fragment's directory relative to the project
    root, or is as it was. *)
Definition handlersClaim (h : Host) (importPath : string)
    (fields functions : list (string * value)) : Prop :=
  lookup "functions" fields = Some (VObj functions) ->
  exists functions',
    prepareImportedConfig h importPath (VObj fields)
    = Ok (substituteDirname h
            (path_relative h (REALPATH h) (path_dirname h importPath))
            (VObj (assign "functions" (VObj functions') fields)))
    /\ map fst functions' = map fst functions
    /\ (forall name func, lookup name functions = Some func ->
          exists func', lookup name functions' = Some func'
                        /\ handlerRewritten h
                             (path_relative h (REALPATH h) (path_dirname h importPath))
                             func func').

(** C9 as the spec states it, for one declaration: the callable is given
    the inputs of the declaration, an empty mapping when it has none. *)
Definition inputsClaim (options : value) : Prop :=
  snd (realOptions options) =
    match get "inputs" options with
    | VUndef => VObj []
    | supplied => supplied
    end.

(* ================================================================= *)
(** * Definitions for the further properties *)

(** A host whose variables cannot be populated. *)
Definition brokenVariablesHost : Host :=
  {| path_sep := path_sep projectHost;
     path_extname := path_extname projectHost;
     path_join := path_join projectHost;
     path_dirname := path_dirname projectHost;
     path_relative := path_relative projectHost;
     path_resolve := path_resolve projectHost;
     REALPATH := REALPATH projectHost;
     statSync := statSync projectHost;
     resolveModule := resolveModule projectHost;
     populateService := Throw "Invalid variable reference syntax";
     populateProperty := populateProperty projectHost;
     matchesVariableSyntax := matchesVariableSyntax projectHost;
     getMatches := getMatches projectHost;
     getProperties := getProperties projectHost;
     readFileSync := readFileSync projectHost;
     require := require projectHost;
     pluginManager := pluginManager projectHost |}.

(** A project whose fragment has a function without a definition. *)
Definition nullFunctionDoc : value :=
  VObj [("functions", VObj [("hello", VObj [("handler", VStr "src/handler.func")]);
                            ("empty", VNull)])].

(** Roots that import one file, and a missing file beside an existing one. *)
Definition oneImportRoot : value :=
  VObj [("custom", VObj [("import", VStr "fragments/b.yml")])].

Definition siblingsRoot : value :=
  VObj [("custom", VObj [("import", VArr [VStr "missing.yml"; VStr "fragments/b.yml"])])].

(** A root whose plugins are in the host's object form. *)
Definition objectPluginsRoot : value :=
  VObj [("plugins", VObj [("modules", VArr [VStr "some-plugin"])]);
        ("custom", VObj [("import", VStr "fragments/b.yml")])].

(** What is at a path of a document, if the path leads somewhere. *)
Fixpoint leafAt (path : list key) (o : value) : option value :=
  match path with
  | [] => Some o
  | k :: rest =>
      match o, k with
      | VObj fields, _ =>
          match lookup (key_name k) fields with
          | Some child => leafAt rest child
          | None => None
          end
      | VArr items, KIndex i =>
          match nth_error items i with
          | Some child => leafAt rest child
          | None => None
          end
      | _, _ => None
      end
  end.

(** The paths of the fragments merged, by the events, in order. *)
Definition mergedPaths (evs : list event) : list string :=
  flat_map (fun e => match e with
                     | Merged importPath => [importPath]
                     | _ => []
                     end) evs.

(** The second is what loading and preparing the file at the first gave. *)
Definition preparedFrom (h : Host) (merged : string * value) : Prop :=
  exists inputs,
    rbind (loadConfig h (fst merged) inputs) (prepareImportedConfig h (fst merged))
    = Ok (snd merged).

(** From [w] to [w'] the fragments [merges] were merged into the root
    document, each the one loaded and prepared from the path its event
    names, and nothing else was done to the document. *)
Definition mergedBetween (h : Host) (merges : list (string * value)) (w w' : World) : Prop :=
  service w' = fold_left merge (map snd merges) (service w)
  /\ mergedPaths (events w') = (mergedPaths (events w) ++ map fst merges)%list
  /\ Forall (preparedFrom h) merges.

(** The number of fragments merged, by the events. *)
Definition mergedCount (evs : list event) : nat :=
  List.length (filter (fun e => match e with Merged _ => true | _ => false end) evs).

(* ================================================================= *)
(** * Path resolution: C5, C6, C7 *)

Section ResolutionFacts.
Variable h : Host.

Lemma lookInDirectory_spec (pathToImport : string) (extnames tries : list string)
    (tr : list probe) :
  let candidates := map (fun e => path_join h pathToImport (SERVERLESS ++ e)) extnames in
  lookInDirectory h pathToImport extnames tries tr =
    ((tr ++ map StatSync (attempted (existsOnDisk h) candidates))%list,
     match find (existsOnDisk h) candidates with
     | Some file => Ok file
     | None =>
         Throw ("Cannot import " ++ pathToImport ++ ": "
                ++ "in the given directory no serverless config can be found" ++ Str.nl
                ++ tried (tries ++ candidates)%list)
     end).
Proof.
  revert tries tr.
  induction extnames as [|e rest IH]; intros tries tr; cbn [map attempted find lookInDirectory].
  - unfold throw. now rewrite !app_nil_r.
  - unfold bind, tryStat, existsOnDisk.
    destruct (statSync h (path_join h pathToImport (SERVERLESS ++ e))) as [st|err];
      cbn [tryOrUndefined].
    + reflexivity.
    + rewrite IH. cbn zeta. now rewrite <- !app_assoc.
Qed.

Lemma resolveAsModule_spec (pathToImport basedir : string) (extnames tries : list string)
    (tr : list probe) :
  let candidates := map (fun e => path_join h pathToImport (SERVERLESS ++ e)) extnames in
  resolveAsModule h pathToImport basedir extnames tries tr =
    ((tr ++ map (fun c => ResolveModule c basedir)
                (attempted (isResolved h basedir) candidates))%list,
     match firstResolved h basedir candidates with
     | Some file => Ok file
     | None =>
         Throw ("Cannot import " ++ pathToImport ++ ": "
                ++ "the given module cannot be resolved" ++ Str.nl
                ++ tried (tries ++ candidates)%list)
     end).
Proof.
  revert tries tr.
  induction extnames as [|e rest IH]; intros tries tr;
    cbn [map attempted firstResolved resolveAsModule].
  - unfold throw. now rewrite !app_nil_r.
  - unfold bind, tryResolveModule, isResolved, resolvesFrom.
    destruct (resolveModule h (path_join h pathToImport (SERVERLESS ++ e)) basedir)
      as [file|err]; cbn [tryOrUndefined].
    + destruct (Str.is_empty file); [|reflexivity].
      rewrite IH. cbn zeta. now rewrite <- !app_assoc.
    + rewrite IH. cbn zeta. now rewrite <- !app_assoc.
Qed.

End ResolutionFacts.

(** C5, as the spec states it, fails: the directory [conf.js] has a
    recognized extension, so it is returned itself and the
    [serverless.yml] in it is never probed. *)
Lemma directory_with_config_extension_is_not_probed :
  statSync (posixHost dottedDirectoryDisk HasLoadServicePlugins) "conf.js"
    = Ok {| isDirectory := true |}
  /\ resolvePopulatedPath (posixHost dottedDirectoryDisk HasLoadServicePlugins)
       "conf.js" "/proj" [] = ([StatSync "conf.js"], Ok "conf.js")
  /\ ~ directoryClaim (posixHost dottedDirectoryDisk HasLoadServicePlugins)
         "conf.js" "/proj".
Proof.
  split; [reflexivity|]. split; [reflexivity|].
  intros claim. specialize (claim eq_refl). vm_compute in claim. discriminate claim.
Qed.

(** C5, amended: for every import path without a recognized config
    extension that denotes an existing directory, resolution probes
    [serverless.yml], then [serverless.yaml], then [serverless.js] in it, in
    that order, and returns the first that exists; if none exists, the error
    lists those three paths in that order. *)
Theorem directory_import_probes_in_order (h : Host) (pathToImport basedir : string) :
  CONFIG_EXTNAMES_has (path_extname h pathToImport) = false ->
  directoryClaim h pathToImport basedir.
Proof.
  intros Hext Hdir. cbn zeta. unfold resolvePopulatedPath.
  rewrite Hext. unfold bind at 1. unfold tryStat at 1. rewrite Hdir.
  cbn [tryOrUndefined app].
  rewrite (lookInDirectory_spec h pathToImport CONFIG_EXTNAMES [] [StatSync pathToImport]).
  reflexivity.
Qed.

Lemma directory_import_probes_in_order_witness :
  resolvePopulatedPath projectHost "fragments/a" "/proj" [] =
    ([StatSync "fragments/a"; StatSync "fragments/a/serverless.yml"],
     Ok "fragments/a/serverless.yml")
  /\ resolvePopulatedPath projectHost "fragments/empty" "/proj" [] =
       ([StatSync "fragments/empty"; StatSync "fragments/empty/serverless.yml";
         StatSync "fragments/empty/serverless.yaml"; StatSync "fragments/empty/serverless.js"],
        Throw ("Cannot import fragments/empty: "
               ++ "in the given directory no serverless config can be found" ++ Str.nl
               ++ "Tried: " ++ Str.nl
               ++ " - fragments/empty/serverless.yml" ++ Str.nl
               ++ " - fragments/empty/serverless.yaml" ++ Str.nl
               ++ " - fragments/empty/serverless.js")).
Proof.
  split.
  - exact (directory_import_probes_in_order projectHost "fragments/a" "/proj"
             eq_refl eq_refl).
  - exact (directory_import_probes_in_order projectHost "fragments/empty" "/proj"
             eq_refl eq_refl).
Defined.

(** C6: a path with a recognized config extension is returned as it is
    when it exists, with no module resolution attempted; when it does not
    exist and resolves as a module from the base directory, the resolved
    path is returned; when both fail, the error says the file doesn't
    exist. *)
Theorem config_extension_resolution (h : Host) (pathToImport basedir : string) :
  CONFIG_EXTNAMES_has (path_extname h pathToImport) = true ->
  (forall stats, statSync h pathToImport = Ok stats ->
     resolvePopulatedPath h pathToImport basedir [] =
       ([StatSync pathToImport], Ok pathToImport))
  /\ (forall err file,
        statSync h pathToImport = Throw err ->
        resolvesFrom h basedir pathToImport = Some file ->
        resolvePopulatedPath h pathToImport basedir [] =
          ([StatSync pathToImport; ResolveModule pathToImport basedir], Ok file))
  /\ (forall err,
        statSync h pathToImport = Throw err ->
        resolvesFrom h basedir pathToImport = None ->
        resolvePopulatedPath h pathToImport basedir [] =
          ([StatSync pathToImport; ResolveModule pathToImport basedir],
           Throw ("Cannot import " ++ pathToImport ++ ": the given file doesn't exist"))).
Proof.
  intros Hext. unfold resolvePopulatedPath. rewrite Hext.
  unfold bind, tryStat, tryResolveModule, ret, throw, resolvesFrom.
  repeat split.
  - intros stats Hstat. now rewrite Hstat.
  - intros err file Hstat Hres. rewrite Hstat. cbn [tryOrUndefined app].
    destruct (resolveModule h pathToImport basedir) as [f|e]; cbn [tryOrUndefined]; [|discriminate].
    destruct (Str.is_empty f); [discriminate|]. now inversion Hres.
  - intros err Hstat Hres. rewrite Hstat. cbn [tryOrUndefined app].
    destruct (resolveModule h pathToImport basedir) as [f|e]; cbn [tryOrUndefined]; [|reflexivity].
    destruct (Str.is_empty f); [reflexivity|discriminate].
Qed.

Lemma config_extension_resolution_witness :
  resolvePopulatedPath projectHost "fragments/b.yml" "/proj" [] =
    ([StatSync "fragments/b.yml"], Ok "fragments/b.yml")
  /\ resolvePopulatedPath projectHost "shared.yml" "/proj" [] =
       ([StatSync "shared.yml"; ResolveModule "shared.yml" "/proj"],
        Ok "/proj/node_modules/shared.yml")
  /\ resolvePopulatedPath projectHost "missing.yml" "/proj" [] =
       ([StatSync "missing.yml"; ResolveModule "missing.yml" "/proj"],
        Throw "Cannot import missing.yml: the given file doesn't exist").
Proof.
  split; [|split].
  - exact (proj1 (config_extension_resolution projectHost "fragments/b.yml" "/proj" eq_refl)
             {| isDirectory := false |} eq_refl).
  - exact (proj1 (proj2 (config_extension_resolution projectHost "shared.yml" "/proj" eq_refl))
             _ _ eq_refl eq_refl).
  - exact (proj2 (proj2 (config_extension_resolution projectHost "missing.yml" "/proj" eq_refl))
             _ eq_refl eq_refl).
Defined.

(** C7: a path with no recognized config extension that is not an
    existing directory is resolved as a module from the base directory:
    [<path>/serverless.yml], then [<path>/serverless.yaml], then
    [<path>/serverless.js], the first that resolves being returned; if none
    resolves, the error lists the three in that order. *)
Theorem module_import_resolves_in_order (h : Host) (pathToImport basedir : string) :
  CONFIG_EXTNAMES_has (path_extname h pathToImport) = false ->
  statSync h pathToImport <> Ok {| isDirectory := true |} ->
  let candidates := serverlessFiles h pathToImport in
  resolvePopulatedPath h pathToImport basedir [] =
    (StatSync pathToImport
       :: map (fun c => ResolveModule c basedir) (attempted (isResolved h basedir) candidates),
     match firstResolved h basedir candidates with
     | Some file => Ok file
     | None =>
         Throw ("Cannot import " ++ pathToImport ++ ": "
                ++ "the given module cannot be resolved" ++ Str.nl
                ++ "Tried: " ++ Str.nl
                ++ " - " ++ path_join h pathToImport "serverless.yml" ++ Str.nl
                ++ " - " ++ path_join h pathToImport "serverless.yaml" ++ Str.nl
                ++ " - " ++ path_join h pathToImport "serverless.js")
     end).
Proof.
  intros Hext Hdir. cbn zeta. unfold resolvePopulatedPath.
  rewrite Hext. unfold bind at 1. unfold tryStat at 1.
  pose proof (resolveAsModule_spec h pathToImport basedir CONFIG_EXTNAMES []
                [StatSync pathToImport]) as Hmod.
  destruct (statSync h pathToImport) as [[[|]]|err]; cbn [tryOrUndefined app];
    try (rewrite Hmod; reflexivity).
  now elim Hdir.
Qed.

Lemma module_import_resolves_in_order_witness :
  resolvePopulatedPath projectHost "shared" "/proj" [] =
    ([StatSync "shared"; ResolveModule "shared/serverless.yml" "/proj";
      ResolveModule "shared/serverless.yaml" "/proj"],
     Ok "/proj/node_modules/shared/serverless.yaml")
  /\ resolvePopulatedPath projectHost "nowhere" "/proj" [] =
       ([StatSync "nowhere"; ResolveModule "nowhere/serverless.yml" "/proj";
         ResolveModule "nowhere/serverless.yaml" "/proj"; ResolveModule "nowhere/serverless.js" "/proj"],
        Throw ("Cannot import nowhere: the given module cannot be resolved" ++ Str.nl
               ++ "Tried: " ++ Str.nl
               ++ " - nowhere/serverless.yml" ++ Str.nl
               ++ " - nowhere/serverless.yaml" ++ Str.nl
               ++ " - nowhere/serverless.js")).
Proof.
  split.
  - apply (module_import_resolves_in_order projectHost "shared" "/proj" eq_refl).
    discriminate.
  - apply (module_import_resolves_in_order projectHost "nowhere" "/proj" eq_refl).
    discriminate.
Defined.

(* ================================================================= *)
(** * Import declarations: C10 *)

Lemma import_of_custom (custom : value) :
  get "import" (if truthy custom then custom else VObj []) = get "import" custom.
Proof. destruct custom as [ | | [|] | [|n] | [|c s] | items | fields]; reflexivity. Qed.

Lemma getImports_eq (config : value) :
  getImports config =
    match get "import" (get "custom" config) with
    | VArr items => items
    | VStr "" => []
    | VStr s => [VStr s]
    | _ => []
    end.
Proof.
  unfold getImports. rewrite import_of_custom.
  destruct (get "import" (get "custom" config)) as [ | | b | n | [|c s] | items | fields];
    reflexivity.
Qed.

Lemma addPlugins_eq (instances : list (option string)) (w : World) :
  fold_left (fun w plugin => match plugin with
                             | Some instance => emit (AddPlugin instance) w
                             | None => w
                             end) instances w =
    {| service := service w;
       events := (events w
                  ++ flat_map (fun plugin => match plugin with
                                             | Some instance => [AddPlugin instance]
                                             | None => []
                                             end) instances)%list;
       promises := promises w; waiting := waiting w; queue := queue w |}.
Proof.
  revert w. induction instances as [|[i|] rest IH]; intros w; cbn [fold_left flat_map].
  - rewrite app_nil_r. now destruct w.
  - rewrite IH. unfold emit. cbn [service events promises waiting queue].
    now rewrite <- app_assoc.
  - apply IH.
Qed.

Lemma loadImportedPlugins_eq (h : Host) (originalPlugins : list value) (w : World) :
  loadImportedPlugins h originalPlugins w =
    {| service := service w;
       events := (events w
                  ++ pluginEvents h (difference (pluginsOf (service w)) originalPlugins))%list;
       promises := promises w; waiting := waiting w; queue := queue w |}.
Proof.
  unfold loadImportedPlugins, pluginEvents.
  destruct (pluginManager h) as [|resolveServicePlugins]; [reflexivity|].
  rewrite addPlugins_eq. unfold emit. cbn [service events promises waiting queue].
  now rewrite <- app_assoc.
Qed.

Lemma value_eqb_refl : forall v : value, value_eqb v v = true.
Proof.
  fix IH 1. intros [ | | b | n | s | items | fields]; cbn [value_eqb]; try reflexivity.
  - apply Bool.eqb_reflx.
  - apply Nat.eqb_refl.
  - apply String.eqb_refl.
  - induction items as [|x xs IHxs]; [reflexivity|]. now rewrite IH, IHxs.
  - induction fields as [|[k x] xs IHxs]; [reflexivity|].
    now rewrite String.eqb_refl, IH, IHxs.
Qed.

Lemma difference_incl (array values : list value) :
  incl array values -> difference array values = [].
Proof.
  unfold difference. induction array as [|x xs IH]; intros Hincl; [reflexivity|].
  cbn [filter].
  assert (Hx : existsb (value_eqb x) values = true).
  { apply existsb_exists. exists x. split; [apply Hincl; now left|apply value_eqb_refl]. }
  rewrite Hx. cbn [negb]. apply IH. intros y Hy. apply Hincl. now right.
Qed.

(** [difference] keeps the order of its first list and adds nothing to
    it. *)
Lemma difference_spec (array values : list value) :
  (forall x, In x (difference array values)
             <-> In x array /\ existsb (value_eqb x) values = false)
  /\ (NoDup array -> NoDup (difference array values))
  /\ difference array values
     = filter (fun x => negb (existsb (value_eqb x) values)) array.
Proof.
  unfold difference. repeat split.
  - now apply filter_In in H.
  - apply filter_In in H as [_ H]. now apply negb_true_iff in H.
  - intros [Hin Hnot]. apply filter_In. split; [exact Hin|]. now rewrite Hnot.
  - apply NoDup_filter.
Qed.

Lemma difference_self (plugins : list value) : difference plugins plugins = [].
Proof. apply difference_incl, incl_refl. Qed.

Lemma constructor_sliceable (h : Host) (service0 : value) :
  sliceable (get "plugins" service0) = true ->
  construct h service0
  = Ok (loadImportedPlugins h (pluginsOf service0) (snd (startImports h service0)))
  /\ constructor h service0
     = loadImportedPlugins h (pluginsOf service0) (snd (startImports h service0)).
Proof.
  intros Hplugins. unfold constructor, construct, originalPluginsOf.
  now rewrite Hplugins.
Qed.

Lemma constructor_throws (h : Host) (service0 : value) :
  sliceable (get "plugins" service0) = false ->
  (exists message, construct h service0 = Throw message)
  /\ constructor h service0 = initial service0.
Proof.
  intros Hplugins. unfold constructor, construct, originalPluginsOf.
  rewrite Hplugins. split; [eexists|]; reflexivity.
Qed.




(* ================================================================= *)
(** * Handlers: C8 *)

Lemma lookup_assign_same (k : string) (v : value) (fields : list (string * value)) :
  lookup k (assign k v fields) = Some v.
Proof.
  induction fields as [|[k' v'] rest IH]; cbn [assign lookup].
  - now rewrite String.eqb_refl.
  - destruct (String.eqb k k') eqn:E; cbn [lookup]; rewrite E; [reflexivity|exact IH].
Qed.

Lemma lookup_assign_other (k k' : string) (v : value) (fields : list (string * value)) :
  k' <> k -> lookup k' (assign k v fields) = lookup k' fields.
Proof.
  intros Hne. induction fields as [|[k0 v0] rest IH]; cbn [assign lookup].
  - destruct (String.eqb k' k) eqn:E; [|reflexivity].
    apply String.eqb_eq in E. contradiction.
  - destruct (String.eqb k k0) eqn:E; cbn [lookup].
    + apply String.eqb_eq in E. subst k0.
      destruct (String.eqb k' k) eqn:E'; [|reflexivity].
      apply String.eqb_eq in E'. contradiction.
    + destruct (String.eqb k' k0); [reflexivity|exact IH].
Qed.

Lemma split_not_nil (sep : ascii) (s : string) : Str.split sep s <> [].
Proof.
  destruct s as [|c rest]; cbn [Str.split]; [discriminate|].
  destruct (Ascii.eqb c sep); [discriminate|].
  destruct (Str.split sep rest); discriminate.
Qed.

Lemma concat_cons (sep x : string) (xs : list string) :
  xs <> [] -> String.concat sep (x :: xs) = x ++ sep ++ String.concat sep xs.
Proof. destruct xs; [congruence|reflexivity]. Qed.

Lemma join_split_translate (sep : ascii) (s : string) :
  Str.join "/" (Str.split sep s) = translate sep "/" s.
Proof.
  unfold Str.join. induction s as [|c rest IH]; [reflexivity|].
  cbn [Str.split translate]. destruct (Ascii.eqb c sep).
  - rewrite concat_cons by apply split_not_nil. now rewrite IH.
  - pose proof (split_not_nil sep rest) as Hne.
    destruct (Str.split sep rest) as [|x xs]; [congruence|].
    rewrite <- IH. destruct xs as [|y ys]; reflexivity.
Qed.

Lemma translate_has_no (from to : ascii) (s : string) :
  to <> from -> Str.has_char from (translate from to s) = false.
Proof.
  intros Hne. unfold Str.has_char.
  induction s as [|c rest IH]; [reflexivity|].
  cbn [translate list_ascii_of_string existsb]. rewrite IH, orb_false_r.
  destruct (Ascii.eqb c from) eqn:E.
  - apply Ascii.eqb_neq. congruence.
  - apply Ascii.eqb_neq. apply Ascii.eqb_neq in E. congruence.
Qed.

Lemma translate_same (c : ascii) (s : string) : translate c c s = s.
Proof.
  induction s as [|d rest IH]; [reflexivity|]. cbn [translate]. rewrite IH.
  destruct (Ascii.eqb d c) eqn:E; [|reflexivity].
  apply Ascii.eqb_eq in E. now subst.
Qed.

Section HandlerFacts.
Variable h : Host.
Variable importDir : string.

Lemma rewriteHandler_spec (func : value) :
  nullish func = false ->
  exists func', rewriteHandler h importDir func = Ok func'
                /\ handlerRewritten h importDir func func'.
Proof.
  intros Hnn. unfold handlerRewritten, rewriteHandler.
  destruct func as [ | | b | n | s | items | fields]; try discriminate;
    try (eexists; split; reflexivity).
  cbn [get]. destruct (lookup "handler" fields) as [[ | | b | n | s | items | fs]|] eqn:E;
    try (eexists; split; reflexivity).
  eexists. split; [reflexivity|]. cbn [get]. split.
  - now rewrite lookup_assign_same.
  - intros k Hk. now rewrite lookup_assign_other.
Qed.

Lemma rewriteFields_spec (functions : list (string * value)) :
  Forall (fun entry => nullish (snd entry) = false) functions ->
  exists functions',
    rewriteFields h importDir functions = Ok functions'
    /\ map fst functions' = map fst functions
    /\ forall name func, lookup name functions = Some func ->
         exists func', lookup name functions' = Some func'
                       /\ handlerRewritten h importDir func func'.
Proof.
  induction 1 as [|[name func] rest Hfunc _ IH]; cbn [rewriteFields].
  - exists []. repeat split. intros name func Hl. discriminate Hl.
  - destruct (rewriteHandler_spec func Hfunc) as [func' [Hr Hfunc']].
    destruct IH as [rest' [Hrest [Hnames Hlookup]]].
    rewrite Hr, Hrest. cbn [rbind].
    exists ((name, func') :: rest'). repeat split.
    + cbn [map fst]. now rewrite Hnames.
    + intros name0 func0. cbn [lookup].
      destruct (String.eqb name0 name).
      * intros Heq. inversion Heq. subst func0. now exists func'.
      * apply Hlookup.
Qed.

End HandlerFacts.

(** C8, as the spec states it, fails: a function that is [null] has no
    handler, yet it is not left as it is: line 132 throws on it and the
    fragment is not prepared at all. *)
Lemma null_function_entry_is_not_left_unchanged :
  (exists cause,
     prepareImportedConfig projectHost "/proj/fragments/a/serverless.yml" nullFunctionDoc
     = Throw cause)
  /\ ~ handlersClaim projectHost "/proj/fragments/a/serverless.yml"
        [("functions", get "functions" nullFunctionDoc)]
        [("hello", VObj [("handler", VStr "src/handler.func")]); ("empty", VNull)].
Proof.
  split; [eexists; reflexivity|].
  intros claim. destruct (claim eq_refl) as [functions' [Hprepared _]].
  vm_compute in Hprepared. discriminate Hprepared.
Qed.

(** C8, amended: in a fragment none of whose functions is [null] or
    [undefined], every function whose [handler] is a string gets the join
    of the fragment's directory, taken relative to the project root
    ([path.relative(REALPATH, path.dirname(importPath))]), with that
    handler, every platform separator made a forward slash, and keeps its
    other properties; a function whose handler is absent or not a string is
    left as it is. *)
Theorem handlers_made_relative_to_import (h : Host) (importPath : string)
    (fields functions : list (string * value)) :
  forallb (fun entry => negb (nullish (snd entry))) functions = true ->
  handlersClaim h importPath fields functions
  /\ (forall location,
        toPosixPath h location = translate (path_sep h) "/" location
        /\ ("/"%char <> path_sep h ->
            Str.has_char (path_sep h) (toPosixPath h location) = false)).
Proof.
  intros Hobjects. split.
  - intros Hfunctions.
    assert (Hall : Forall (fun entry => nullish (snd entry) = false) functions).
    { apply Forall_forall. intros entry Hin.
      apply (proj1 (forallb_forall _ _) Hobjects) in Hin.
      now apply negb_true_iff in Hin. }
    destruct (rewriteFields_spec h
                (path_relative h (REALPATH h) (path_dirname h importPath)) functions Hall)
      as [functions' [Hr [Hnames Hlookup]]].
    exists functions'. split; [|split; assumption].
    unfold prepareImportedConfig, importDirOf, rewriteHandlers.
    now rewrite Hfunctions, Hr.
  - intros location. split.
    + apply join_split_translate.
    + intros Hsep. unfold toPosixPath. rewrite join_split_translate.
      now apply translate_has_no.
Qed.

Lemma handlers_made_relative_to_import_witness :
  exists functions',
    prepareImportedConfig projectHost "/proj/fragments/a/serverless.yml" fragmentDoc
    = Ok (substituteDirname projectHost "fragments/a"
            (VObj [("custom", get "custom" fragmentDoc);
                   ("plugins", get "plugins" fragmentDoc);
                   ("functions", VObj functions')]))
    /\ (exists hello, lookup "hello" functions' = Some hello
                      /\ get "handler" hello = VStr "fragments/a/src/handler.func")
    /\ lookup "other" functions' = Some (VObj [("timeout", VNum 3)]).
Proof.
  destruct (proj1 (handlers_made_relative_to_import projectHost
                     "/proj/fragments/a/serverless.yml"
                     [("custom", get "custom" fragmentDoc);
                      ("plugins", get "plugins" fragmentDoc);
                      ("functions", get "functions" fragmentDoc)]
                     [("hello", VObj [("handler", VStr "src/handler.func")]);
                      ("other", VObj [("timeout", VNum 3)])]
                     eq_refl) eq_refl)
    as [functions' [Hprepared [_ Hlookup]]].
  exists functions'. split; [exact Hprepared|]. split.
  - destruct (Hlookup "hello" _ eq_refl) as [hello [Hhello Hrewritten]].
    exists hello. split; [exact Hhello|exact (proj1 Hrewritten)].
  - destruct (Hlookup "other" _ eq_refl) as [other [Hother Hsame]].
    rewrite Hother. f_equal. exact Hsame.
Defined.

(* ================================================================= *)
(** * The root document and the events across the asynchronous calls *)

Lemma sameOutside_refl (w : World) : sameOutside w w.
Proof. now split. Qed.

Lemma sameOutside_trans (w1 w2 w3 : World) :
  sameOutside w1 w2 -> sameOutside w2 w3 -> sameOutside w1 w3.
Proof. unfold sameOutside. intros [? ?] [? ?]. split; congruence. Qed.

Lemma settle_outside (p : pid) (o : outcome) (w : World) : sameOutside w (settle p o w).
Proof.
  unfold settle. destruct (nth_error (promises w) p) as [[n|o']|]; now split.
Qed.

Lemma await_outside (p : pid) (f : frame) (w : World) : sameOutside w (await p f w).
Proof.
  unfold await. destruct (nth_error (promises w) p) as [[n|o']|]; now split.
Qed.

Lemma enqueue_outside (f : frame) (o : outcome) (w : World) : sameOutside w (enqueue f o w).
Proof. now split. Qed.

Lemma newPromise_outside (st : pstate) (w : World) : sameOutside w (snd (newPromise st w)).
Proof. now split. Qed.

Lemma allElement_outside (all : pid) (o : outcome) (w : World) :
  sameOutside w (allElement all o w).
Proof.
  unfold allElement.
  destruct o as [v|m]; [|apply settle_outside].
  destruct (nth_error (promises w) all) as [[[|[|n]]|o']|];
    try apply settle_outside; now split.
Qed.

Create HintDb outside.
#[local] Hint Resolve sameOutside_refl settle_outside await_outside enqueue_outside
  newPromise_outside allElement_outside : outside.

Lemma promiseAll_outside (ps : list pid) (w : World) :
  sameOutside w (snd (promiseAll ps w)).
Proof.
  unfold promiseAll. cbn [newPromise snd].
  set (all := List.length (promises w)).
  match goal with |- sameOutside w (fold_left _ _ ?w0) =>
    assert (H0 : sameOutside w w0) by now split end.
  revert H0. generalize dependent all. intros all.
  match goal with |- sameOutside w ?w0 -> _ => generalize w0 end.
  induction ps as [|p rest IH]; intros w0 H0; cbn [fold_left]; [exact H0|].
  apply IH. eapply sameOutside_trans; [exact H0|apply await_outside].
Qed.

Section OutsideFacts.
Variable h : Host.

Lemma importConfig_outside (options : value) (basedir : string) (w : World) :
  sameOutside w (snd (importConfig h options basedir w)).
Proof.
  unfold importConfig, resolvePathToImport. cbn [newPromise].
  destruct (realOptions options) as [pathToImport inputs]. cbn [snd].
  eapply sameOutside_trans; [|apply await_outside]. now split.
Qed.

Lemma mapImportConfig_outside (imports : list value) (basedir : string) (w : World) :
  sameOutside w (snd (mapImportConfig h imports basedir w)).
Proof.
  revert w. induction imports as [|options rest IH]; intros w; cbn [mapImportConfig].
  - apply sameOutside_refl.
  - pose proof (importConfig_outside options basedir w) as H1.
    destruct (importConfig h options basedir w) as [p w1].
    pose proof (IH w1) as H2.
    destruct (mapImportConfig h rest basedir w1) as [ps w2].
    cbn [snd] in *. eapply sameOutside_trans; eassumption.
Qed.

Lemma importConfigs_outside (config : value) (basedir : string) (w : World) :
  sameOutside w (snd (importConfigs h config basedir w)).
Proof.
  unfold importConfigs. cbn [newPromise].
  match goal with |- context [mapImportConfig h ?i ?b ?w0] =>
    pose proof (mapImportConfig_outside i b w0) as H1;
    destruct (mapImportConfig h i b w0) as [ps w1] end.
  pose proof (promiseAll_outside ps w1) as H2.
  destruct (promiseAll ps w1) as [all w2]. cbn [snd] in *.
  eapply sameOutside_trans; [|apply await_outside].
  eapply sameOutside_trans; [|exact H2].
  eapply sameOutside_trans; [|exact H1]. now split.
Qed.

Lemma startImports_outside (service0 : value) :
  sameOutside (initial service0) (snd (startImports h service0)).
Proof.
  unfold startImports.
  pose proof (importConfigs_outside service0 (REALPATH h) (initial service0)) as H1.
  destruct (importConfigs h service0 (REALPATH h) (initial service0)) as [imports w1].
  cbn [newPromise snd] in *.
  eapply sameOutside_trans; [|apply await_outside].
  eapply sameOutside_trans; [exact H1|]. now split.
Qed.

(** The constructor hands the plugin manager a list computed from the
    document as it was when the constructor began, unless line 43 throws. *)
Lemma constructor_events (service0 : value) :
  service (constructor h service0) = service0
  /\ events (constructor h service0)
     = if sliceable (get "plugins" service0) then pluginEvents h [] else [].
Proof.
  destruct (sliceable (get "plugins" service0)) eqn:Hplugins.
  - rewrite (proj2 (constructor_sliceable h service0 Hplugins)).
    rewrite loadImportedPlugins_eq. cbn [service events].
    destruct (startImports_outside service0) as [Hs He].
    rewrite Hs, He. cbn [initial service events app].
    now rewrite difference_self.
  - rewrite (proj2 (constructor_throws h service0 Hplugins)). now split.
Qed.

Lemma importResolved_events (importPath : string) (inputs : value) (self : pid)
    (w : World) :
  exists evs, events (importResolved h importPath inputs self w) = (events w ++ evs)%list
              /\ handsNothing evs.
Proof.
  unfold importResolved.
  destruct (rbind (loadConfig h importPath inputs) (prepareImportedConfig h importPath))
    as [config|cause].
  - match goal with |- context [importConfigs h ?c ?b ?w0] =>
      pose proof (importConfigs_outside c b w0) as [_ H1];
      destruct (importConfigs h c b w0) as [nested w1] end.
    cbn [snd] in H1.
    exists [CliLog ("Importing " ++ importPath); Merged importPath].
    split; [|reflexivity].
    rewrite (proj2 (settle_outside _ _ _)). unfold mergeIntoService.
    cbn [emit events]. rewrite H1. cbn [emit events]. now rewrite <- app_assoc.
  - exists [CliLog ("Importing " ++ importPath)]. split; [|reflexivity].
    now rewrite (proj2 (settle_outside _ _ _)).
Qed.

Lemma resume_events (f : frame) (o : outcome) (w : World) :
  exists evs, events (resume h f o w) = (events w ++ evs)%list /\ handsNothing evs.
Proof.
  assert (Hnone : forall w', sameOutside w w' ->
            exists evs, events w' = (events w ++ evs)%list /\ handsNothing evs).
  { intros w' [_ He]. exists []. split; [now rewrite app_nil_r|reflexivity]. }
  destruct f as [rawPath basedir self|basedir self|inputs self|all|self|self];
    destruct o as [v|m]; cbn [resume];
    try (apply Hnone; auto with outside; fail).
  - destruct rawPath; apply Hnone; auto with outside.
  - destruct rawPath; apply Hnone; auto with outside.
  - destruct v as [ | | b | n | pathToImport | items | fields];
      try (apply Hnone; auto with outside; fail).
    destruct (resolvePopulatedPath h pathToImport basedir []) as [probes r].
    exists [Resolving pathToImport basedir probes]. split; [|reflexivity].
    now rewrite (proj2 (settle_outside _ _ _)).
  - destruct v as [ | | b | n | importPath | items | fields];
      try (apply Hnone; auto with outside; fail).
    apply importResolved_events.
  - exists [ConsoleError m]. split; [|reflexivity].
    now rewrite (proj2 (settle_outside _ _ _)).
Qed.

Lemma run_events (fuel : nat) (w : World) :
  exists evs, events (run h fuel w) = (events w ++ evs)%list /\ handsNothing evs.
Proof.
  revert w. induction fuel as [|fuel IH]; intros w; cbn [run].
  - exists []. split; [now rewrite app_nil_r|reflexivity].
  - unfold step. destruct (queue w) as [|[f o] rest].
    + exists []. split; [now rewrite app_nil_r|reflexivity].
    + match goal with |- context [resume h f o ?w0] =>
        destruct (resume_events f o w0) as [evs1 [H1 Hq1]];
        destruct (IH (resume h f o w0)) as [evs2 [H2 Hq2]] end.
      exists (evs1 ++ evs2)%list. split.
      * rewrite H2, H1. cbn [events]. now rewrite app_assoc.
      * unfold handsNothing, handedOver in *. rewrite flat_map_app.
        now rewrite Hq1, Hq2.
Qed.

(** Whatever the imports bring, the plugin manager is handed one list
    and that list is empty; it is handed none when line 43 throws. *)
Lemma activation_hands_over_nothing (fuel : nat) (service0 : value) :
  handedOver (events (activate h fuel service0))
  = if sliceable (get "plugins" service0) then [[]] else [].
Proof.
  unfold activate.
  destruct (run_events fuel (constructor h service0)) as [evs [He Hq]].
  rewrite He, (proj2 (constructor_events service0)).
  unfold handedOver in *. rewrite flat_map_app. unfold handsNothing, handedOver in Hq.
  rewrite Hq, app_nil_r.
  destruct (sliceable (get "plugins" service0)); [|reflexivity].
  unfold pluginEvents.
  destruct (pluginManager h) as [|resolveServicePlugins]; [reflexivity|].
  cbn [flat_map app]. f_equal.
  induction (resolveServicePlugins []) as [|[i|] rest IH]; [reflexivity| |]; exact IH.
Qed.

End OutsideFacts.

(* ================================================================= *)
(** * Loading a fragment: C9 *)

(** C9, as the spec states it, fails: a structured record that has no
    [inputs] hands the callable [undefined], not an empty mapping. *)
Lemma record_without_inputs_passes_undefined :
  realOptions (VObj [("module", VStr "factory.js")]) = (VStr "factory.js", VUndef)
  /\ loadConfig projectHost "factory.js"
       (snd (realOptions (VObj [("module", VStr "factory.js")])))
     = Ok (VObj [("custom", VObj [("given", VUndef)])])
  /\ ~ inputsClaim (VObj [("module", VStr "factory.js")]).
Proof.
  split; [reflexivity|]. split; [reflexivity|].
  intros claim. vm_compute in claim. discriminate claim.
Qed.

(** C9, amended: a resolved path with the [.js] extension is loaded with
    [require]; its export if that is a function, otherwise its default
    export, is called with the inputs of the declaration (an empty mapping
    for a bare string; for a structured record its [inputs] property as it
    is, [undefined] when it has none) and what it returns is the fragment
    that is prepared and merged; an export that is not callable, or a call
    that throws, rejects the import with an error that names the resolved
    path and carries the cause's message; any other path is read with the
    host's [readFileSync]. *)
Theorem fragment_loading (h : Host) (importPath : string) (inputs : value) :
  (path_extname h importPath = ".js" ->
     (forall importFunction,
        require h (path_resolve h importPath) = Ok (ExportsFunction importFunction) ->
        loadConfig h importPath inputs = importFunction inputs)
     /\ (forall importFunction,
           require h (path_resolve h importPath) = Ok (ExportsDefault importFunction) ->
           loadConfig h importPath inputs = importFunction inputs)
     /\ (require h (path_resolve h importPath) = Ok ExportsNotCallable ->
         loadConfig h importPath inputs = Throw "importFunction is not a function"))
  /\ (path_extname h importPath <> ".js" ->
      loadConfig h importPath inputs = readFileSync h importPath)
  /\ (forall cause self w,
        loadConfig h importPath inputs = Throw cause ->
        importResolved h importPath inputs self w =
          settle self
            (Rejected ("Error: Cannot import " ++ importPath ++ Str.nl
                       ++ "Cause: " ++ cause))
            (emit (CliLog ("Importing " ++ importPath)) w))
  /\ (forall config prepared self w,
        loadConfig h importPath inputs = Ok config ->
        prepareImportedConfig h importPath config = Ok prepared ->
        service (importResolved h importPath inputs self w) = merge (service w) prepared)
  /\ (forall s, realOptions (VStr s) = (VStr s, VObj []))
  /\ (forall fields,
        realOptions (VObj fields) = (get "module" (VObj fields), get "inputs" (VObj fields))).
Proof.
  repeat split.
  - intros importFunction Hreq. unfold loadConfig. rewrite H, Hreq. reflexivity.
  - intros importFunction Hreq. unfold loadConfig. rewrite H, Hreq. reflexivity.
  - intros Hreq. unfold loadConfig. rewrite H, Hreq. reflexivity.
  - intros Hext. unfold loadConfig.
    destruct (String.eqb (path_extname h importPath) JS_EXTNAME) eqn:E; [|reflexivity].
    apply String.eqb_eq in E. contradiction.
  - intros cause self w Hload. unfold importResolved. rewrite Hload. reflexivity.
  - intros config prepared self w Hload Hprep. unfold importResolved.
    rewrite Hload. cbn [rbind]. rewrite Hprep.
    match goal with |- context [importConfigs h ?c ?b ?w0] =>
      pose proof (importConfigs_outside h c b w0) as [H1 _];
      destruct (importConfigs h c b w0) as [nested w1] end.
    cbn [snd] in H1. rewrite (proj1 (settle_outside _ _ _)).
    unfold mergeIntoService. cbn [emit service]. now rewrite H1.
Qed.

Lemma fragment_loading_witness :
  loadConfig projectHost "factory.js" (VObj [("region", VStr "eu")])
    = Ok (VObj [("custom", VObj [("given", VObj [("region", VStr "eu")])])])
  /\ loadConfig projectHost "broken.js" (VObj []) = Throw "importFunction is not a function"
  /\ loadConfig projectHost "fragments/b.yml" (VObj []) = Ok (VObj [])
  /\ promises (importResolved projectHost "broken.js" (VObj []) 0
                 (snd (newPromise (Pending 0) (initial (VObj [])))))
     = [Settled (Rejected ("Error: Cannot import broken.js" ++ Str.nl
                           ++ "Cause: importFunction is not a function"))]
  /\ service (importResolved projectHost "factory.js" (VObj [("region", VStr "eu")]) 0
                (snd (newPromise (Pending 0) (initial (VObj [])))))
     = VObj [("custom", VObj [("given", VObj [("region", VStr "eu")])])].
Proof.
  split; [|split; [|split; [|split]]].
  - exact (proj1 (proj2 (proj1 (fragment_loading projectHost "factory.js"
                                  (VObj [("region", VStr "eu")])) eq_refl))
             _ eq_refl).
  - exact (proj2 (proj2 (proj1 (fragment_loading projectHost "broken.js" (VObj []))
                           eq_refl)) eq_refl).
  - apply (proj1 (proj2 (fragment_loading projectHost "fragments/b.yml" (VObj [])))).
    discriminate.
  - rewrite (proj1 (proj2 (proj2 (fragment_loading projectHost "broken.js" (VObj []))))
               "importFunction is not a function" 0 _ eq_refl).
    reflexivity.
  - exact (proj1 (proj2 (proj2 (proj2 (fragment_loading projectHost "factory.js"
                                         (VObj [("region", VStr "eu")])))))
             _ _ 0 _ eq_refl eq_refl).
Defined.

(* ================================================================= *)
(** * The dirname placeholder: C4 *)

(** C4, evaluated: the fragment [fragments/a/serverless.yml] holds
    ["${dirname}/in:${dirname}/out"], in which the host matches the
    [dirname] placeholder twice; after the fragment is prepared only the
    first of the two is replaced by the fragment's directory, where C4 has
    every one replaced.  The placeholder of another variable is left as it
    is, as C4 says. *)
Theorem dirname_replaced_once_only :
  exists prepared,
    prepareImportedConfig projectHost "fragments/a/serverless.yml" fragmentDoc = Ok prepared
    /\ getMatches projectHost "${dirname}/in:${dirname}/out"
       = Some [{| match_text := "${dirname}"; variable := "dirname" |};
               {| match_text := "${dirname}"; variable := "dirname" |}]
    /\ get "assets" (get "custom" fragmentDoc) = VStr "${dirname}/in:${dirname}/out"
    /\ get "assets" (get "custom" prepared) = VStr "fragments/a/in:${dirname}/out"
    /\ get "assets" (get "custom" prepared) <> VStr "fragments/a/in:fragments/a/out"
    /\ get "stage" (get "custom" prepared) = VStr "fragments/a/${opt:stage}".
Proof. eexists. repeat split. discriminate. Qed.

(** Where the platform's separator is a backslash the handler is given
    forward slashes and the directory put for [dirname] is not. *)
Lemma dirname_keeps_platform_separators :
  prepareImportedConfig backslashHost "C:\proj\fragments\a\serverless.yml"
    (VObj [("custom", VObj [("here", VStr "${dirname}/assets")]);
           ("functions", VObj [("hello", VObj [("handler", VStr "src/handler.func")])])])
  = Ok (VObj [("custom", VObj [("here", VStr "fragments\a/assets")]);
              ("functions",
               VObj [("hello", VObj [("handler", VStr "fragments/a/src/handler.func")])])]).
Proof. reflexivity. Qed.

Lemma prefix_drop (pat s : string) :
  String.prefix pat s = true -> s = pat ++ Str.drop (String.length pat) s.
Proof.
  revert s. induction pat as [|c pat IH]; intros s Hp; [reflexivity|].
  destruct s as [|d s]; [discriminate|]. cbn [String.prefix] in Hp.
  destruct (ascii_dec c d) as [->|]; [|discriminate].
  cbn [String.length Str.drop append]. now rewrite <- IH.
Qed.

Lemma find_sub_spec (pat s before after : string) :
  Str.find_sub pat s = Some (before, after) -> s = before ++ pat ++ after.
Proof.
  revert before. induction s as [|c s IH]; intros before; cbn [Str.find_sub].
  - destruct (String.prefix pat "") eqn:Hp; [|discriminate].
    intros H. inversion H. subst. now apply prefix_drop.
  - destruct (String.prefix pat (String c s)) eqn:Hp.
    + intros H. inversion H. subst. now apply prefix_drop.
    + destruct (Str.find_sub pat s) as [[b a]|]; [|discriminate].
      intros H. inversion H. subst. cbn [append]. now rewrite <- (IH b).
Qed.

Lemma get_substitution_literal (matched before after template : string) :
  Str.has_char "$" template = false ->
  Str.get_substitution matched before after template = template.
Proof.
  unfold Str.has_char. induction template as [|c t IH]; [reflexivity|].
  cbn [list_ascii_of_string existsb]. intros H. apply orb_false_iff in H as [Hc Ht].
  assert (Hne : c <> "$"%char).
  { intros ->. discriminate Hc. }
  transitivity (String c (Str.get_substitution matched before after t)).
  - destruct c as [[|] [|] [|] [|] [|] [|] [|] [|]]; try reflexivity.
    now elim Hne.
  - now rewrite IH.
Qed.

(** [replace] puts the replacement, taken literally when it holds no
    [$], for the first occurrence of the pattern. *)
Lemma replace_first_occurrence (s pat replacement before after : string) :
  Str.find_sub pat s = Some (before, after) ->
  Str.has_char "$" replacement = false ->
  s = before ++ pat ++ after
  /\ Str.replace s pat replacement = before ++ replacement ++ after.
Proof.
  intros Hfind Hlit. split; [now apply find_sub_spec|].
  unfold Str.replace. rewrite Hfind. now rewrite get_substitution_literal.
Qed.

(** One [dirname] match: the first occurrence of its text is replaced in
    the value, by the directory as [path.relative] gave it. *)
Lemma substituteMatches_single (importDir : string) (path : list key) (text : string)
    (matches : list Match) (m : Match) (config : value) :
  filter (fun m => String.eqb (variable m) DIRNAME) matches = [m] ->
  substituteMatches importDir path text matches config
  = set path (VStr (Str.replace text (match_text m) importDir)) config.
Proof. intros H. unfold substituteMatches. now rewrite H. Qed.

(* ================================================================= *)
(** * Where nested imports are resolved from *)

Lemma queuesResolutions_refl (w : World) : queuesResolutions [] w w.
Proof. split; [now rewrite app_nil_r|auto]. Qed.

Lemma queuesResolutions_trans (a b : list (value * string)) (w1 w2 w3 : World) :
  queuesResolutions a w1 w2 -> queuesResolutions b w2 w3 ->
  queuesResolutions (a ++ b) w1 w3.
Proof.
  intros [Hq1 Hw1] [Hq2 Hw2]. split; [|auto].
  now rewrite Hq2, Hq1, app_assoc.
Qed.

Lemma await_queues (p : pid) (f : frame) (w : World) :
  isResolution f = false -> queuesResolutions [] w (await p f w).
Proof.
  intros Hf. unfold await, queuesResolutions, noResolutionWaits.
  destruct (nth_error (promises w) p) as [[n|o]|]; cbn [enqueue queue waiting].
  - split; [now rewrite app_nil_r|].
    intros Hw. rewrite forallb_app, Hw. cbn. now rewrite Hf.
  - split; [|auto]. unfold resolutionsQueued. rewrite flat_map_app. cbn.
    destruct f; try discriminate; reflexivity.
  - split; [now rewrite app_nil_r|].
    intros Hw. rewrite forallb_app, Hw. cbn. now rewrite Hf.
Qed.

Lemma settle_queues (p : pid) (o : outcome) (w : World) :
  noResolutionWaits w -> queuesResolutions [] w (settle p o w).
Proof.
  intros Hw. unfold settle.
  destruct (nth_error (promises w) p) as [[n|o']|]; try apply queuesResolutions_refl.
  unfold queuesResolutions, noResolutionWaits in *. cbn [queue waiting]. split.
  - unfold resolutionsQueued. rewrite flat_map_app. f_equal.
    induction (waiting w) as [|[q f] rest IH]; [reflexivity|].
    cbn [forallb snd] in Hw. apply andb_true_iff in Hw as [Hf Hrest].
    cbn [filter]. destruct (waitsFor p (q, f)); [|now apply IH].
    cbn [map flat_map fst snd]. rewrite (IH Hrest).
    destruct f; try discriminate; reflexivity.
  - intros _. induction (waiting w) as [|[q f] rest IH]; [reflexivity|].
    cbn [forallb snd] in Hw. apply andb_true_iff in Hw as [Hf Hrest].
    cbn [filter]. destruct (negb (waitsFor p (q, f))); [|now apply IH].
    cbn [forallb snd]. now rewrite Hf, IH.
Qed.

Lemma promiseAll_queues (ps : list pid) (w : World) :
  queuesResolutions [] w (snd (promiseAll ps w)).
Proof.
  unfold promiseAll. cbn [newPromise snd].
  set (all := List.length (promises w)).
  match goal with |- queuesResolutions [] w (fold_left _ _ ?w0) =>
    assert (H0 : queuesResolutions [] w w0) by (split; [now rewrite app_nil_r|auto]);
    revert H0; generalize w0 end.
  induction ps as [|p rest IH]; intros w0 H0; cbn [fold_left]; [exact H0|].
  apply IH. change (@nil (value * string)) with (@nil (value * string) ++ [])%list.
  eapply queuesResolutions_trans; [exact H0|now apply await_queues].
Qed.

Section NestedBasedir.
Variable h : Host.

Lemma importConfig_queues (options : value) (basedir : string) (w : World) :
  queuesResolutions [(fst (realOptions options), basedir)] w
    (snd (importConfig h options basedir w)).
Proof.
  unfold importConfig, resolvePathToImport. cbn [newPromise].
  destruct (realOptions options) as [pathToImport inputs]. cbn [snd fst].
  change [(pathToImport, basedir)] with ([(pathToImport, basedir)] ++ [])%list.
  eapply queuesResolutions_trans; [|now apply await_queues].
  split; [|auto]. cbn [enqueue queue]. unfold resolutionsQueued.
  now rewrite flat_map_app.
Qed.

Lemma mapImportConfig_queues (imports : list value) (basedir : string) (w : World) :
  queuesResolutions (map (fun options => (fst (realOptions options), basedir)) imports) w
    (snd (mapImportConfig h imports basedir w)).
Proof.
  revert w. induction imports as [|options rest IH]; intros w; cbn [mapImportConfig map].
  - apply queuesResolutions_refl.
  - pose proof (importConfig_queues options basedir w) as H1.
    destruct (importConfig h options basedir w) as [p w1].
    pose proof (IH w1) as H2.
    destruct (mapImportConfig h rest basedir w1) as [ps w2].
    cbn [snd] in *.
    exact (queuesResolutions_trans _ _ _ _ _ H1 H2).
Qed.

(** [importConfigs] queues the resolution of every declaration of the
    document, each from the base directory it was called with. *)
Lemma importConfigs_queues (config : value) (basedir : string) (w : World) :
  queuesResolutions
    (map (fun options => (fst (realOptions options), basedir)) (getImports config)) w
    (snd (importConfigs h config basedir w)).
Proof.
  unfold importConfigs. cbn [newPromise].
  match goal with |- context [mapImportConfig h ?i ?b ?w0] =>
    pose proof (mapImportConfig_queues i b w0) as H1;
    destruct (mapImportConfig h i b w0) as [ps w1] end.
  pose proof (promiseAll_queues ps w1) as H2.
  destruct (promiseAll ps w1) as [all w2]. cbn [snd] in *.
  rewrite <- (app_nil_r (map _ _)).
  eapply queuesResolutions_trans; [|now apply await_queues].
  rewrite <- (app_nil_r (map _ _)).
  eapply queuesResolutions_trans; [|exact H2].
  destruct H1 as [Hq Hw]. split; [exact Hq|exact Hw].
Qed.

(** The step that learns where a fragment is loads it, queues the
    resolution of its nested imports from the fragment's own directory, and
    merges the fragment at once, before any of them has begun. *)
Lemma importResolved_merges_at_once (importPath : string) (inputs : value) (self : pid)
    (w : World) (config : value) :
  rbind (loadConfig h importPath inputs) (prepareImportedConfig h importPath) = Ok config ->
  service (importResolved h importPath inputs self w) = merge (service w) config
  /\ events (importResolved h importPath inputs self w)
     = (events w ++ [CliLog ("Importing " ++ importPath); Merged importPath])%list
  /\ (noResolutionWaits w ->
      resolutionsQueued (queue (importResolved h importPath inputs self w))
      = (resolutionsQueued (queue w)
         ++ map (fun options => (fst (realOptions options), path_dirname h importPath))
                (getImports config))%list).
Proof.
  intros Hconfig. unfold importResolved. rewrite Hconfig.
  match goal with |- context [importConfigs h ?c ?b ?w0] =>
    pose proof (importConfigs_outside h c b w0) as [Hs He];
    pose proof (importConfigs_queues c b w0) as [Hq Hw];
    destruct (importConfigs h c b w0) as [nested w1] end.
  cbn [snd] in *. repeat split.
  - rewrite (proj1 (settle_outside _ _ _)). unfold mergeIntoService.
    cbn [emit service]. now rewrite Hs.
  - rewrite (proj2 (settle_outside _ _ _)). unfold mergeIntoService.
    cbn [emit events]. rewrite He. cbn [emit events]. now rewrite <- app_assoc.
  - intros Hnone.
    match goal with |- context [settle self ?o ?w2] =>
      destruct (settle_queues self o w2) as [Hq2 _] end.
    + apply Hw. exact Hnone.
    + rewrite Hq2, app_nil_r. exact Hq.
Qed.

End NestedBasedir.

(* ================================================================= *)
(** * One import of the root, and one nested in it, on every host *)

(** X16: an import the root declares itself fails to resolve: the error
    is written with [console.error] and rejects the promise [catch]
    returns; the root document is left as it is. *)
Lemma root_import_failure_reaches_catch (h : Host) (root : value) (raw p m : string)
    (probes : list probe) :
  sliceable (get "plugins" root) = true ->
  getImports root = [VStr raw] ->
  populateService h = Ok tt ->
  populateProperty h raw = Ok p ->
  resolvePopulatedPath h p (REALPATH h) [] = (probes, Throw m) ->
  forall fuel, 6 <= fuel ->
  let w := activate h fuel root in
  queue w = [] /\ waiting w = []
  /\ service w = root
  /\ events w = (pluginEvents h [] ++ [Resolving p (REALPATH h) probes; ConsoleError m])%list
  /\ outcomeIn w (snd (fst (startImports h root))) = Some (Settled (Rejected m)).
Proof.
  intros Hplugins Himports Hservice Hproperty Hresolve fuel Hfuel.
  do 6 (destruct fuel as [|fuel]; [lia|]).
  unfold activate.
  rewrite (proj2 (constructor_sliceable h root Hplugins)), loadImportedPlugins_eq.
  unfold startImports, importConfigs. rewrite Himports.
  cbn -[pluginEvents difference pluginsOf resolvePopulatedPath]. rewrite Hservice.
  cbn -[pluginEvents difference pluginsOf resolvePopulatedPath].
  rewrite Hproperty.
  cbn -[pluginEvents difference pluginsOf resolvePopulatedPath].
  rewrite Hresolve.
  cbn -[pluginEvents difference pluginsOf resolvePopulatedPath].
  rewrite difference_self.
  destruct fuel; cbn -[pluginEvents]; rewrite <- !app_assoc; repeat split.
Qed.

Lemma root_import_failure_reaches_catch_witness :
  events (activate projectHost 6 missingImportRoot)
  = [LoadServicePlugins [];
     Resolving "missing.yml" "/proj"
       [StatSync "missing.yml"; ResolveModule "missing.yml" "/proj"];
     ConsoleError "Cannot import missing.yml: the given file doesn't exist"].
Proof.
  exact (proj1 (proj2 (proj2 (proj2
           (root_import_failure_reaches_catch projectHost missingImportRoot
              "missing.yml" "missing.yml"
              "Cannot import missing.yml: the given file doesn't exist"
              [StatSync "missing.yml"; ResolveModule "missing.yml" "/proj"]
              eq_refl eq_refl eq_refl eq_refl eq_refl 6 (le_n 6)))))).
Defined.

(** The fragment of the root's import declares an import of its own, which
    resolves and loads: the fragment is merged first and the nested
    document after it, over it. *)
Lemma nested_import_merged_after_fragment (h : Host) (root config nestedConfig : value)
    (raw p importPath nestedRaw nestedPath nestedImportPath : string)
    (probes nestedProbes : list probe) :
  sliceable (get "plugins" root) = true ->
  getImports root = [VStr raw] ->
  populateService h = Ok tt ->
  populateProperty h raw = Ok p ->
  resolvePopulatedPath h p (REALPATH h) [] = (probes, Ok importPath) ->
  rbind (loadConfig h importPath (VObj [])) (prepareImportedConfig h importPath) = Ok config ->
  getImports config = [VStr nestedRaw] ->
  populateProperty h nestedRaw = Ok nestedPath ->
  resolvePopulatedPath h nestedPath (path_dirname h importPath) []
    = (nestedProbes, Ok nestedImportPath) ->
  rbind (loadConfig h nestedImportPath (VObj []))
        (prepareImportedConfig h nestedImportPath) = Ok nestedConfig ->
  getImports nestedConfig = [] ->
  forall fuel, 12 <= fuel ->
  let w := activate h fuel root in
  queue w = [] /\ waiting w = []
  /\ service w = merge (merge root config) nestedConfig
  /\ events w = (pluginEvents h []
                 ++ [Resolving p (REALPATH h) probes;
                     CliLog ("Importing " ++ importPath);
                     Merged importPath;
                     Resolving nestedPath (path_dirname h importPath) nestedProbes;
                     CliLog ("Importing " ++ nestedImportPath);
                     Merged nestedImportPath])%list.
Proof.
  intros Hplugins Himports Hservice Hproperty Hresolve Hconfig Hnested Hproperty' Hresolve'
    Hconfig' Hnone fuel Hfuel.
  do 12 (destruct fuel as [|fuel]; [lia|]).
  unfold activate.
  rewrite (proj2 (constructor_sliceable h root Hplugins)), loadImportedPlugins_eq.
  unfold startImports, importConfigs. rewrite Himports.
  cbn -[pluginEvents difference pluginsOf resolvePopulatedPath importResolved].
  rewrite Hservice.
  cbn -[pluginEvents difference pluginsOf resolvePopulatedPath importResolved].
  rewrite Hproperty.
  cbn -[pluginEvents difference pluginsOf resolvePopulatedPath importResolved].
  rewrite Hresolve.
  cbn -[pluginEvents difference pluginsOf resolvePopulatedPath importResolved].
  unfold importResolved. rewrite Hconfig. unfold importConfigs. rewrite Hnested.
  cbn -[pluginEvents difference pluginsOf resolvePopulatedPath merge importResolved].
  rewrite Hservice.
  cbn -[pluginEvents difference pluginsOf resolvePopulatedPath merge importResolved].
  rewrite Hproperty'.
  cbn -[pluginEvents difference pluginsOf resolvePopulatedPath merge importResolved].
  rewrite Hresolve'.
  cbn -[pluginEvents difference pluginsOf resolvePopulatedPath merge importResolved].
  unfold importResolved. rewrite Hconfig'. unfold importConfigs. rewrite Hnone.
  cbn -[pluginEvents difference pluginsOf resolvePopulatedPath merge].
  rewrite difference_self.
  destruct fuel; cbn -[pluginEvents merge]; rewrite <- !app_assoc; repeat split.
Qed.

(** The fragment of the root's import declares an import of its own, which
    fails to resolve: nothing is written with [console.error] and both the
    promise of the root's [importConfigs] and the one [catch] returns are
    fulfilled. *)
Lemma nested_import_failure_is_dropped (h : Host) (root config : value)
    (raw p importPath nestedRaw nestedPath m : string) (probes nestedProbes : list probe) :
  sliceable (get "plugins" root) = true ->
  getImports root = [VStr raw] ->
  populateService h = Ok tt ->
  populateProperty h raw = Ok p ->
  resolvePopulatedPath h p (REALPATH h) [] = (probes, Ok importPath) ->
  rbind (loadConfig h importPath (VObj [])) (prepareImportedConfig h importPath) = Ok config ->
  getImports config = [VStr nestedRaw] ->
  populateProperty h nestedRaw = Ok nestedPath ->
  resolvePopulatedPath h nestedPath (path_dirname h importPath) [] = (nestedProbes, Throw m) ->
  forall fuel, 12 <= fuel ->
  let w := activate h fuel root in
  queue w = [] /\ waiting w = []
  /\ service w = merge root config
  /\ events w = (pluginEvents h []
                 ++ [Resolving p (REALPATH h) probes;
                     CliLog ("Importing " ++ importPath);
                     Merged importPath;
                     Resolving nestedPath (path_dirname h importPath) nestedProbes])%list
  /\ outcomeIn w (fst (fst (startImports h root))) = Some (Settled (Fulfilled VUndef))
  /\ outcomeIn w (snd (fst (startImports h root))) = Some (Settled (Fulfilled VUndef)).
Proof.
  intros Hplugins Himports Hservice Hproperty Hresolve Hconfig Hnested Hproperty' Hresolve' fuel Hfuel.
  do 12 (destruct fuel as [|fuel]; [lia|]).
  unfold activate.
  rewrite (proj2 (constructor_sliceable h root Hplugins)), loadImportedPlugins_eq.
  unfold startImports, importConfigs. rewrite Himports.
  cbn -[pluginEvents difference pluginsOf resolvePopulatedPath importResolved].
  rewrite Hservice.
  cbn -[pluginEvents difference pluginsOf resolvePopulatedPath importResolved].
  rewrite Hproperty.
  cbn -[pluginEvents difference pluginsOf resolvePopulatedPath importResolved].
  rewrite Hresolve.
  cbn -[pluginEvents difference pluginsOf resolvePopulatedPath importResolved].
  unfold importResolved. rewrite Hconfig. unfold importConfigs. rewrite Hnested.
  cbn -[pluginEvents difference pluginsOf resolvePopulatedPath merge]. rewrite Hservice.
  cbn -[pluginEvents difference pluginsOf resolvePopulatedPath merge].
  rewrite Hproperty'.
  cbn -[pluginEvents difference pluginsOf resolvePopulatedPath merge].
  rewrite Hresolve'.
  cbn -[pluginEvents difference pluginsOf resolvePopulatedPath merge].
  rewrite difference_self.
  destruct fuel; cbn -[pluginEvents merge]; rewrite <- !app_assoc; repeat split.
Qed.

(* ================================================================= *)
(** * The order of things: C1, C2, C3 *)

(** C1, evaluated: the root with the plugin
    [serverless-import-config-plugin] imports [fragments/a], whose fragment
    brings [fragment-plugin].  When every import has completed the root's
    plugins less those of the beginning are [fragment-plugin], but the plugin
    manager was handed the empty list, by the constructor, before anything
    was imported. *)
Theorem plugins_reconciled_before_imports :
  let w := activate projectHost 12 projectRoot in
  queue w = [] /\ waiting w = []
  /\ handedOver (events (constructor projectHost projectRoot)) = [[]]
  /\ service (constructor projectHost projectRoot) = projectRoot
  /\ pluginsOf (service w) = [VStr "serverless-import-config-plugin"; VStr "fragment-plugin"]
  /\ difference (pluginsOf (service w)) (pluginsOf projectRoot) = [VStr "fragment-plugin"]
  /\ handedOver (events w) = [[]].
Proof. vm_compute. repeat split. Qed.

(** C2, evaluated: the fragment [fragments/a/serverless.yml] imports
    [./nested.yml]; both set [custom.owner].  The fragment is merged into
    the root before its nested import is even resolved, so the nested
    document is merged last and its [owner] stays, where C2 has the nested
    import merged first.  The nested import is resolved from the fragment's
    directory [fragments/a], as C2 says. *)
Theorem fragment_merged_before_nested_imports :
  let w := activate projectHost 12 projectRoot in
  queue w = [] /\ waiting w = []
  /\ events w =
       [LoadServicePlugins [];
        Resolving "fragments/a" "/proj"
          [StatSync "fragments/a"; StatSync "fragments/a/serverless.yml"];
        CliLog "Importing fragments/a/serverless.yml";
        Merged "fragments/a/serverless.yml";
        Resolving "./nested.yml" "fragments/a"
          [StatSync "./nested.yml"; ResolveModule "./nested.yml" "fragments/a"];
        CliLog "Importing /proj/fragments/a/nested.yml";
        Merged "/proj/fragments/a/nested.yml"]
  /\ get "owner" (get "custom" fragmentDoc) = VStr "fragment"
  /\ get "owner" (get "custom" nestedDoc) = VStr "nested"
  /\ get "owner" (get "custom" (service w)) = VStr "nested".
Proof. vm_compute. repeat split. Qed.

(** C3, evaluated: the fragment [fragments/a/serverless.yml] imports
    [./missing.yml], which does not exist.  The nested resolution fails and
    rejects the promises of the nested calls, which nothing awaits; the
    promise of the root's [importConfigs] (0) and the one [catch] returns
    (4) are fulfilled, and nothing is written with [console.error], where C3
    has the failure logged and thrown again from the activation. *)
Theorem nested_failure_not_propagated :
  let w := activate danglingHost 12 projectRoot in
  queue w = [] /\ waiting w = []
  /\ fst (startImports danglingHost projectRoot) = (0, 4)
  /\ outcomeIn w 0 = Some (Settled (Fulfilled VUndef))
  /\ outcomeIn w 4 = Some (Settled (Fulfilled VUndef))
  /\ outcomeIn w 5
     = Some (Settled (Rejected "Cannot import ./missing.yml: the given file doesn't exist"))
  /\ events w =
       [LoadServicePlugins [];
        Resolving "fragments/a" "/proj"
          [StatSync "fragments/a"; StatSync "fragments/a/serverless.yml"];
        CliLog "Importing fragments/a/serverless.yml";
        Merged "fragments/a/serverless.yml";
        Resolving "./missing.yml" "fragments/a"
          [StatSync "./missing.yml"; ResolveModule "./missing.yml" "fragments/a"]].
Proof. vm_compute. repeat split. Qed.

(** The failure of an import the root declares itself is written with
    [console.error] and rejects the promise [catch] returns. *)
Lemma root_failure_logged_and_rethrown :
  let w := activate projectHost 12 missingImportRoot in
  queue w = [] /\ waiting w = []
  /\ fst (startImports projectHost missingImportRoot) = (0, 4)
  /\ outcomeIn w 4
     = Some (Settled (Rejected "Cannot import missing.yml: the given file doesn't exist"))
  /\ events w =
       [LoadServicePlugins [];
        Resolving "missing.yml" "/proj" [StatSync "missing.yml"; ResolveModule "missing.yml" "/proj"];
        ConsoleError "Cannot import missing.yml: the given file doesn't exist"].
Proof. vm_compute. repeat split. Qed.

(* ================================================================= *)
(** * More on path resolution *)

Lemma attempted_incl {A} (good : A -> bool) (candidates : list A) (x : A) :
  In x (attempted good candidates) -> In x candidates.
Proof.
  induction candidates as [|c rest IH]; cbn [attempted]; [tauto|].
  intros [->|Hin]; [now left|]. destruct (good c); [contradiction|].
  right. now apply IH.
Qed.

Lemma attempted_length {A} (good : A -> bool) (candidates : list A) :
  List.length (attempted good candidates) <= List.length candidates.
Proof.
  induction candidates as [|c rest IH]; cbn [attempted List.length]; [lia|].
  destruct (good c); cbn [List.length]; lia.
Qed.

Lemma attempted_all {A} (good : A -> bool) (candidates : list A) :
  forallb (fun c => negb (good c)) candidates = true ->
  attempted good candidates = candidates.
Proof.
  induction candidates as [|c rest IH]; cbn [attempted forallb]; [reflexivity|].
  intros H. apply andb_true_iff in H as [Hc Hrest].
  apply negb_true_iff in Hc. now rewrite Hc, IH.
Qed.

Lemma find_none_all {A} (good : A -> bool) (candidates : list A) :
  find good candidates = None -> forallb (fun c => negb (good c)) candidates = true.
Proof.
  induction candidates as [|c rest IH]; cbn [find forallb]; [reflexivity|].
  destruct (good c); [discriminate|]. exact IH.
Qed.

Lemma firstResolved_none (h : Host) (basedir : string) (candidates : list string) :
  firstResolved h basedir candidates = None ->
  forallb (fun c => negb (isResolved h basedir c)) candidates = true.
Proof.
  unfold isResolved.
  induction candidates as [|c rest IH]; cbn [firstResolved forallb]; [reflexivity|].
  destruct (resolvesFrom h basedir c); [discriminate|]. exact IH.
Qed.

Lemma firstResolved_some (h : Host) (basedir : string) (candidates : list string)
    (file : string) :
  firstResolved h basedir candidates = Some file ->
  exists c, In c candidates /\ resolvesFrom h basedir c = Some file.
Proof.
  induction candidates as [|c rest IH]; cbn [firstResolved]; [discriminate|].
  destruct (resolvesFrom h basedir c) as [f|] eqn:E.
  - intros H. inversion H. subst. exists c. split; [now left|exact E].
  - intros H. destruct (IH H) as [c' [Hin Hres]]. exists c'. split; [now right|exact Hres].
Qed.

(** Lines 74-119 by cases, on the probes of the host. *)
Lemma resolvePopulatedPath_cases (h : Host) (p basedir : string) :
  resolvePopulatedPath h p basedir [] =
    if CONFIG_EXTNAMES_has (path_extname h p) then
      if existsOnDisk h p then ([StatSync p], Ok p)
      else ([StatSync p; ResolveModule p basedir],
            match resolvesFrom h basedir p with
            | Some file => Ok file
            | None => Throw ("Cannot import " ++ p ++ ": the given file doesn't exist")
            end)
    else
      match statSync h p with
      | Ok {| isDirectory := true |} =>
          (StatSync p :: map StatSync (attempted (existsOnDisk h) (serverlessFiles h p)),
           match find (existsOnDisk h) (serverlessFiles h p) with
           | Some file => Ok file
           | None =>
               Throw ("Cannot import " ++ p ++ ": "
                      ++ "in the given directory no serverless config can be found"
                      ++ Str.nl ++ tried (serverlessFiles h p))
           end)
      | _ =>
          (StatSync p
             :: map (fun c => ResolveModule c basedir)
                    (attempted (isResolved h basedir) (serverlessFiles h p)),
           match firstResolved h basedir (serverlessFiles h p) with
           | Some file => Ok file
           | None =>
               Throw ("Cannot import " ++ p ++ ": "
                      ++ "the given module cannot be resolved"
                      ++ Str.nl ++ tried (serverlessFiles h p))
           end)
      end.
Proof.
  unfold resolvePopulatedPath, existsOnDisk at 1, resolvesFrom at 1.
  destruct (CONFIG_EXTNAMES_has (path_extname h p)).
  - unfold bind, tryStat, tryResolveModule, ret, throw.
    destruct (statSync h p) as [st|e]; cbn [tryOrUndefined app]; [reflexivity|].
    destruct (resolveModule h p basedir) as [f|e']; cbn [tryOrUndefined]; [|reflexivity].
    destruct (Str.is_empty f); reflexivity.
  - unfold bind at 1. unfold tryStat at 1.
    pose proof (lookInDirectory_spec h p CONFIG_EXTNAMES [] [StatSync p]) as Hdir.
    pose proof (resolveAsModule_spec h p basedir CONFIG_EXTNAMES [] [StatSync p]) as Hmod.
    destruct (statSync h p) as [[[|]]|e]; cbn [tryOrUndefined app];
      first [rewrite Hdir | rewrite Hmod]; reflexivity.
Qed.

(** X2: a resolution that succeeds returns the path itself, which has a
    recognized config extension and exists; or, the path with such an
    extension not existing, what module resolution made of it; or one of the
    three [serverless.*] files of an existing directory, which exists; or
    what module resolution made of one of the three.  A path the module
    resolution returns is never empty. *)
Theorem resolved_path_origin (h : Host) (p basedir : string) (probes : list probe)
    (file : string) :
  resolvePopulatedPath h p basedir [] = (probes, Ok file) ->
  (CONFIG_EXTNAMES_has (path_extname h p) = true
   /\ ((existsOnDisk h p = true /\ file = p)
       \/ (existsOnDisk h p = false /\ resolveModule h p basedir = Ok file /\ file <> "")))
  \/ (CONFIG_EXTNAMES_has (path_extname h p) = false
      /\ ((statSync h p = Ok {| isDirectory := true |}
           /\ In file (serverlessFiles h p) /\ existsOnDisk h file = true)
          \/ (statSync h p <> Ok {| isDirectory := true |}
              /\ exists c, In c (serverlessFiles h p)
                           /\ resolveModule h c basedir = Ok file /\ file <> ""))).
Proof.
  assert (Hres : forall c f, resolvesFrom h basedir c = Some f ->
                             resolveModule h c basedir = Ok f /\ f <> "").
  { unfold resolvesFrom. intros c f.
    destruct (resolveModule h c basedir) as [g|e]; [|discriminate].
    destruct g as [|a g]; cbn [Str.is_empty]; [discriminate|].
    intros H. inversion H. subst. split; [reflexivity|discriminate]. }
  intros H. rewrite resolvePopulatedPath_cases in H.
  destruct (CONFIG_EXTNAMES_has (path_extname h p)); [left|right]; (split; [reflexivity|]).
  - destruct (existsOnDisk h p).
    + inversion H. now left.
    + destruct (resolvesFrom h basedir p) as [f|] eqn:E; inversion H.
      subst. right. split; [reflexivity|]. now apply Hres.
  - destruct (statSync h p) as [[[|]]|e] eqn:Hstat.
    + left. destruct (find (existsOnDisk h) (serverlessFiles h p)) as [f|] eqn:E;
        inversion H. subst. apply find_some in E. tauto.
    + right. split; [discriminate|].
      destruct (firstResolved h basedir (serverlessFiles h p)) as [f|] eqn:E;
        inversion H. subst.
      destruct (firstResolved_some _ _ _ _ E) as [c [Hin Hc]].
      exists c. split; [exact Hin|]. now apply Hres.
    + right. split; [discriminate|].
      destruct (firstResolved h basedir (serverlessFiles h p)) as [f|] eqn:E;
        inversion H. subst.
      destruct (firstResolved_some _ _ _ _ E) as [c [Hin Hc]].
      exists c. split; [exact Hin|]. now apply Hres.
Qed.

Lemma resolved_path_origin_witness :
  In "fragments/a/serverless.yml" (serverlessFiles projectHost "fragments/a")
  /\ existsOnDisk projectHost "fragments/a/serverless.yml" = true.
Proof.
  destruct (resolved_path_origin projectHost "fragments/a" "/proj"
              [StatSync "fragments/a"; StatSync "fragments/a/serverless.yml"]
              "fragments/a/serverless.yml" eq_refl)
    as [[Hext _]|[_ [[_ H]|[Hnot _]]]].
  - discriminate Hext.
  - exact H.
  - now elim Hnot.
Defined.

Ltac solve_probes :=
  repeat match goal with
         | H : _ \/ _ |- _ => destruct H
         | H : False |- _ => contradiction
         | H : StatSync _ = StatSync _ |- _ => inversion H; clear H; subst
         | H : ResolveModule _ _ = ResolveModule _ _ |- _ => inversion H; clear H; subst
         | H : StatSync _ = ResolveModule _ _ |- _ => discriminate H
         | H : ResolveModule _ _ = StatSync _ |- _ => discriminate H
         end;
  auto.

(** X3: a resolution first stats the path itself; it makes at most four
    probes, and at most two when the path has a recognized config extension;
    it stats nothing but the path and the three [serverless.*] files in it,
    and resolves nothing as a module but these, each from the base directory
    it was given. *)
Theorem resolution_probes_bounded (h : Host) (p basedir : string) :
  let probes := fst (resolvePopulatedPath h p basedir []) in
  hd_error probes = Some (StatSync p)
  /\ List.length probes <= 4
  /\ (CONFIG_EXTNAMES_has (path_extname h p) = true -> List.length probes <= 2)
  /\ (forall file, In (StatSync file) probes ->
        file = p \/ In file (serverlessFiles h p))
  /\ (forall specifier from, In (ResolveModule specifier from) probes ->
        from = basedir /\ (specifier = p \/ In specifier (serverlessFiles h p))).
Proof.
  cbn zeta. rewrite resolvePopulatedPath_cases.
  assert (Hstat : forall good file,
            In (StatSync file) (map StatSync (attempted good (serverlessFiles h p))) ->
            In file (serverlessFiles h p)).
  { intros good file Hin. apply in_map_iff in Hin as [c [Hc Hin]].
    inversion Hc. subst. now apply attempted_incl in Hin. }
  assert (Hmod : forall good specifier from,
            In (ResolveModule specifier from)
               (map (fun c => ResolveModule c basedir)
                    (attempted good (serverlessFiles h p))) ->
            from = basedir /\ In specifier (serverlessFiles h p)).
  { intros good specifier from Hin. apply in_map_iff in Hin as [c [Hc Hin]].
    inversion Hc. subst. split; [reflexivity|]. now apply attempted_incl in Hin. }
  assert (Hlen : forall (B : Type) (f : string -> B) good,
            List.length (map f (attempted good (serverlessFiles h p))) <= 3).
  { intros B f good. rewrite length_map.
    exact (attempted_length good (serverlessFiles h p)). }
  assert (Hcross1 : forall file (l : list string),
            ~ In (StatSync file) (map (fun c => ResolveModule c basedir) l)).
  { intros file l Hin. apply in_map_iff in Hin as [c [Hc _]]. discriminate Hc. }
  assert (Hcross2 : forall specifier from (l : list string),
            ~ In (ResolveModule specifier from) (map StatSync l)).
  { intros specifier from l Hin. apply in_map_iff in Hin as [c [Hc _]]. discriminate Hc. }
  destruct (CONFIG_EXTNAMES_has (path_extname h p)).
  - destruct (existsOnDisk h p); cbn [fst hd_error List.length];
      (split; [reflexivity|]); (split; [lia|]); (split; [lia|]); split; cbn [In];
      intros; solve_probes.
  - destruct (statSync h p) as [[[|]]|e]; cbn [fst hd_error List.length];
      (split; [reflexivity|]);
      (split; [pose proof (Hlen probe StatSync (existsOnDisk h));
               pose proof (Hlen probe (fun c => ResolveModule c basedir)
                             (isResolved h basedir)); lia|]);
      (split; [discriminate|]); split; cbn [In]; intros; solve_probes.
    all: try (right; eapply Hstat; eassumption).
    all: try (exfalso; eapply Hcross1; eassumption).
    all: try (exfalso; eapply Hcross2; eassumption).
    all: match goal with H : In (ResolveModule _ _) _ |- _ =>
           apply Hmod in H; tauto end.
Qed.

Lemma resolution_probes_bounded_witness :
  List.length (fst (resolvePopulatedPath projectHost "fragments/b.yml" "/proj" [])) <= 2.
Proof.
  exact (proj1 (proj2 (proj2 (resolution_probes_bounded projectHost "fragments/b.yml"
                                "/proj"))) eq_refl).
Defined.

(** X4: a resolution fails only when everything has been tried: the path
    and its module resolution when the path has a recognized config
    extension, the path and all three [serverless.*] candidates otherwise;
    and the message of the error begins with [Cannot import], the path and a
    colon. *)
Theorem resolution_failure_is_exhaustive (h : Host) (p basedir : string)
    (probes : list probe) (message : string) :
  resolvePopulatedPath h p basedir [] = (probes, Throw message) ->
  (exists detail, message = "Cannot import " ++ p ++ ": " ++ detail)
  /\ (CONFIG_EXTNAMES_has (path_extname h p) = true ->
      probes = [StatSync p; ResolveModule p basedir])
  /\ (CONFIG_EXTNAMES_has (path_extname h p) = false ->
      probes = StatSync p :: map StatSync (serverlessFiles h p)
      \/ probes = StatSync p :: map (fun c => ResolveModule c basedir) (serverlessFiles h p)).
Proof.
  rewrite resolvePopulatedPath_cases.
  destruct (CONFIG_EXTNAMES_has (path_extname h p)).
  - destruct (existsOnDisk h p); [discriminate|].
    destruct (resolvesFrom h basedir p); [discriminate|].
    intros H. injection H as <- <-.
    split; [now exists "the given file doesn't exist"|]. split; [reflexivity|discriminate].
  - destruct (statSync h p) as [[[|]]|e].
    + destruct (find (existsOnDisk h) (serverlessFiles h p)) eqn:E; [discriminate|].
      rewrite (attempted_all _ _ (find_none_all _ _ E)).
      intros H. injection H as <- <-.
      split; [eexists; reflexivity|]. split; [discriminate|]. intros _. now left.
    + destruct (firstResolved h basedir (serverlessFiles h p)) eqn:E; [discriminate|].
      rewrite (attempted_all _ _ (firstResolved_none _ _ _ E)).
      intros H. injection H as <- <-.
      split; [eexists; reflexivity|]. split; [discriminate|]. intros _. now right.
    + destruct (firstResolved h basedir (serverlessFiles h p)) eqn:E; [discriminate|].
      rewrite (attempted_all _ _ (firstResolved_none _ _ _ E)).
      intros H. injection H as <- <-.
      split; [eexists; reflexivity|]. split; [discriminate|]. intros _. now right.
Qed.

Lemma resolution_failure_is_exhaustive_witness :
  exists detail,
    "Cannot import missing.yml: the given file doesn't exist"
    = "Cannot import " ++ "missing.yml" ++ ": " ++ detail.
Proof.
  exact (proj1 (resolution_failure_is_exhaustive projectHost "missing.yml" "/proj"
                  [StatSync "missing.yml"; ResolveModule "missing.yml" "/proj"]
                  "Cannot import missing.yml: the given file doesn't exist" eq_refl)).
Defined.

(* ================================================================= *)
(** * More on import declarations and on the preparation of a fragment *)

(** X1: a non-empty string in [custom.import] is the one declaration of
    the document; [null], a boolean or a number there gives none, and so
    does a [custom] that is not an object. *)
Theorem getImports_other_shapes (config : value) :
  (forall c s, get "import" (get "custom" config) = VStr (String c s) ->
     getImports config = [VStr (String c s)])
  /\ (get "import" (get "custom" config) = VNull -> getImports config = [])
  /\ (forall b, get "import" (get "custom" config) = VBool b -> getImports config = [])
  /\ (forall n, get "import" (get "custom" config) = VNum n -> getImports config = [])
  /\ ((forall fields, get "custom" config <> VObj fields) -> getImports config = []).
Proof.
  rewrite getImports_eq. repeat split.
  - intros c s H. now rewrite H.
  - intros H. now rewrite H.
  - intros b H. now rewrite H.
  - intros n H. now rewrite H.
  - intros H. destruct (get "custom" config) as [ | | b | n | s | items | fields];
      try reflexivity. now elim (H fields).
Qed.

Lemma getImports_other_shapes_witness :
  getImports oneImportRoot = [VStr "fragments/b.yml"]
  /\ getImports (VObj [("custom", VStr "import")]) = [].
Proof.
  split.
  - exact (proj1 (getImports_other_shapes oneImportRoot) _ _ eq_refl).
  - apply (proj2 (proj2 (proj2 (proj2
             (getImports_other_shapes (VObj [("custom", VStr "import")])))))).
    discriminate.
Defined.

Lemma translate_length (from to : ascii) (s : string) :
  String.length (translate from to s) = String.length s.
Proof. induction s as [|c rest IH]; cbn [translate String.length]; congruence. Qed.

Lemma translate_idempotent (from to : ascii) (s : string) :
  translate from to (translate from to s) = translate from to s.
Proof.
  induction s as [|c rest IH]; [reflexivity|]. cbn [translate]. rewrite IH. f_equal.
  destruct (Ascii.eqb c from) eqn:E; [|now rewrite E].
  destruct (Ascii.eqb to from); reflexivity.
Qed.

(** X5: [toPosixPath] keeps the length of a location, changes nothing
    more when it is applied again, and changes nothing at all where the
    platform's separator is the forward slash. *)
Theorem toPosixPath_stable (h : Host) (location : string) :
  String.length (toPosixPath h location) = String.length location
  /\ toPosixPath h (toPosixPath h location) = toPosixPath h location
  /\ (path_sep h = "/"%char -> toPosixPath h location = location).
Proof.
  unfold toPosixPath. rewrite !join_split_translate. repeat split.
  - apply translate_length.
  - apply translate_idempotent.
  - intros ->. apply translate_same.
Qed.

Lemma toPosixPath_stable_witness :
  toPosixPath projectHost "fragments/a/src/handler.func" = "fragments/a/src/handler.func".
Proof.
  exact (proj2 (proj2 (toPosixPath_stable projectHost "fragments/a/src/handler.func"))
           eq_refl).
Defined.

Lemma assign_keys (k : string) (v old : value) (fields : list (string * value)) :
  lookup k fields = Some old -> map fst (assign k v fields) = map fst fields.
Proof.
  induction fields as [|[k' v'] rest IH]; cbn [lookup assign]; [discriminate|].
  destruct (String.eqb k k'); [reflexivity|].
  intros H. cbn [map fst]. now rewrite IH.
Qed.

(** X6: the rewriting of the handlers of a fragment that is an object
    gives an object with the same keys in the same order, in which
    everything but [functions] is as it was; where [functions] is absent or
    [null] the fragment is returned as it is. *)
Theorem rewriteHandlers_touches_functions_only (h : Host) (importDir : string)
    (fields : list (string * value)) (rewritten : value) :
  rewriteHandlers h importDir (VObj fields) = Ok rewritten ->
  exists fields',
    rewritten = VObj fields'
    /\ map fst fields' = map fst fields
    /\ (forall k, k <> "functions" -> lookup k fields' = lookup k fields)
    /\ (nullish (get "functions" (VObj fields)) = true -> fields' = fields).
Proof.
  unfold rewriteHandlers. cbn [get].
  destruct (lookup "functions" fields) as [[ | | b | n | s | functions | functions]|] eqn:E;
    try (intros H; injection H as <-; exists fields; repeat split; reflexivity).
  - destruct (rewriteItems h importDir functions) as [functions'|cause]; [|discriminate].
    cbn [rbind]. intros H. injection H as <-. eexists. split; [reflexivity|].
    split; [now apply (assign_keys _ _ _ _ E)|]. split; [|discriminate].
    intros k Hk. now apply lookup_assign_other.
  - destruct (rewriteFields h importDir functions) as [functions'|cause]; [|discriminate].
    cbn [rbind]. intros H. injection H as <-. eexists. split; [reflexivity|].
    split; [now apply (assign_keys _ _ _ _ E)|]. split; [|discriminate].
    intros k Hk. now apply lookup_assign_other.
Qed.

Lemma rewriteHandlers_touches_functions_only_witness :
  exists fields',
    rewriteHandlers projectHost "fragments/a" fragmentDoc = Ok (VObj fields')
    /\ map fst fields' = ["custom"; "plugins"; "functions"]
    /\ lookup "plugins" fields' = Some (VArr [VStr "fragment-plugin"]).
Proof.
  destruct (rewriteHandlers_touches_functions_only projectHost "fragments/a"
              [("custom", get "custom" fragmentDoc);
               ("plugins", get "plugins" fragmentDoc);
               ("functions", get "functions" fragmentDoc)]
              _ eq_refl) as [fields' [Heq [Hkeys [Hrest _]]]].
  exists fields'. split; [now rewrite <- Heq|]. split; [exact Hkeys|].
  apply (Hrest "plugins"). discriminate.
Defined.

Lemma rewriteFields_null_entry (h : Host) (importDir : string)
    (functions : list (string * value)) :
  existsb (fun entry => nullish (snd entry)) functions = true ->
  exists cause, rewriteFields h importDir functions = Throw cause.
Proof.
  induction functions as [|[name func] rest IH]; cbn [existsb rewriteFields snd];
    [discriminate|].
  intros H. apply orb_true_iff in H as [Hnull|Hrest].
  - destruct func; try discriminate; eexists; reflexivity.
  - destruct (rewriteHandler h importDir func) as [func'|cause]; cbn [rbind];
      [|eexists; reflexivity].
    destruct (IH Hrest) as [cause Hcause]. rewrite Hcause. eexists. reflexivity.
Qed.

(** X7: a fragment that is [null] or [undefined] (an empty file), or one
    of whose functions is, cannot be prepared: line 127, or line 132, throws. *)
Theorem prepareImportedConfig_rejects_null (h : Host) (importPath : string) :
  (forall config, nullish config = true ->
     exists cause, prepareImportedConfig h importPath config = Throw cause)
  /\ (forall fields functions,
        lookup "functions" fields = Some (VObj functions) ->
        existsb (fun entry => nullish (snd entry)) functions = true ->
        exists cause, prepareImportedConfig h importPath (VObj fields) = Throw cause).
Proof.
  split.
  - intros config Hnull. destruct config; try discriminate; eexists; reflexivity.
  - intros fields functions Hfunctions Hnull.
    destruct (rewriteFields_null_entry h (importDirOf h importPath) functions Hnull)
      as [cause Hcause].
    exists cause. unfold prepareImportedConfig, rewriteHandlers.
    now rewrite Hfunctions, Hcause.
Qed.

Lemma prepareImportedConfig_rejects_null_witness :
  exists cause,
    prepareImportedConfig projectHost "fragments/a/serverless.yml" nullFunctionDoc
    = Throw cause.
Proof.
  exact (proj2 (prepareImportedConfig_rejects_null projectHost "fragments/a/serverless.yml")
           [("functions", get "functions" nullFunctionDoc)]
           [("hello", VObj [("handler", VStr "src/handler.func")]); ("empty", VNull)]
           eq_refl eq_refl).
Defined.

Lemma nth_error_store (p : pid) (st : pstate) (table : list pstate) :
  p < List.length table -> nth_error (store p st table) p = Some st.
Proof.
  revert table. induction p as [|p IH]; intros [|x rest]; cbn [List.length store nth_error];
    try lia; [reflexivity|]. intros H. apply IH. lia.
Qed.

(** X8: when a fragment cannot be loaded or cannot be prepared, the
    import is logged, the root document is left as it is, none of the
    fragment's own imports is started, and the promise of the import is
    rejected with an error that names the path and the cause. *)
Theorem failed_fragment_is_not_merged (h : Host) (importPath : string) (inputs : value)
    (self : pid) (w : World) (cause : string) (n : nat) :
  rbind (loadConfig h importPath inputs) (prepareImportedConfig h importPath) = Throw cause ->
  outcomeIn w self = Some (Pending n) ->
  noResolutionWaits w ->
  let w' := importResolved h importPath inputs self w in
  service w' = service w
  /\ events w' = (events w ++ [CliLog ("Importing " ++ importPath)])%list
  /\ resolutionsQueued (queue w') = resolutionsQueued (queue w)
  /\ outcomeIn w' self
     = Some (Settled (Rejected ("Error: Cannot import " ++ importPath ++ Str.nl
                                ++ "Cause: " ++ cause))).
Proof.
  intros Hfail Hself Hnone. cbn zeta. unfold importResolved. rewrite Hfail.
  match goal with |- context [settle self ?o ?w0] =>
    pose proof (settle_outside self o w0) as [Hs He];
    destruct (settle_queues self o w0 Hnone) as [Hq _] end.
  repeat split.
  - exact Hs.
  - exact He.
  - rewrite Hq. now rewrite app_nil_r.
  - unfold outcomeIn in *. unfold settle. cbn [emit promises]. rewrite Hself.
    cbn [promises]. apply nth_error_store. apply nth_error_Some. congruence.
Qed.

Lemma failed_fragment_is_not_merged_witness :
  let w := snd (newPromise (Pending 0) (initial projectRoot)) in
  service (importResolved projectHost "broken.js" (VObj []) 0 w) = projectRoot
  /\ outcomeIn (importResolved projectHost "broken.js" (VObj []) 0 w) 0
     = Some (Settled (Rejected ("Error: Cannot import broken.js" ++ Str.nl
                                ++ "Cause: importFunction is not a function"))).
Proof.
  destruct (failed_fragment_is_not_merged projectHost "broken.js" (VObj []) 0
              (snd (newPromise (Pending 0) (initial projectRoot)))
              "importFunction is not a function" 0 eq_refl eq_refl eq_refl)
    as [Hs [_ [_ Ho]]].
  split; [exact Hs|exact Ho].
Defined.

(* ================================================================= *)
(** * More on the dirname placeholder *)

Lemma fold_left_unchanged {A B} (f : A -> B -> A) (l : list B) (a : A) :
  (forall b, In b l -> f a b = a) -> fold_left f l a = a.
Proof.
  induction l as [|b rest IH]; intros H; cbn [fold_left]; [reflexivity|].
  rewrite (H b) by now left. apply IH. intros b' Hin. apply H. now right.
Qed.

(** X9: a fragment none of whose string properties has a match for the
    variable [dirname] is left as it is by the substitution, whatever other
    placeholders it holds. *)
Theorem substituteDirname_without_dirname (h : Host) (importDir : string) (config : value) :
  (forall property text matches m,
     In property (getProperties h config) ->
     prop_value property = VStr text ->
     getMatches h text = Some matches ->
     In m matches -> variable m <> "dirname") ->
  substituteDirname h importDir config = config.
Proof.
  intros Hnone. unfold substituteDirname. apply fold_left_unchanged.
  intros property Hin. unfold substituteProperty.
  destruct (prop_value property) as [ | | b | n | text | items | fields] eqn:Hvalue;
    try reflexivity.
  destruct (matchesVariableSyntax h text); [|reflexivity].
  destruct (getMatches h text) as [matches|] eqn:Hmatches; [|reflexivity].
  unfold substituteMatches.
  replace (filter (fun m => String.eqb (variable m) DIRNAME) matches) with (@nil Match);
    [reflexivity|].
  symmetry. assert (Hall : forall m, In m matches -> variable m <> "dirname").
  { intros m Hm. exact (Hnone property text matches m Hin Hvalue Hmatches Hm). }
  clear Hmatches. induction matches as [|m rest IH]; [reflexivity|].
  cbn [filter]. destruct (String.eqb (variable m) DIRNAME) eqn:E.
  - apply String.eqb_eq in E. elim (Hall m (or_introl eq_refl)). exact E.
  - apply IH. intros m' Hm'. apply Hall. now right.
Qed.

Lemma substituteDirname_without_dirname_witness :
  substituteDirname projectHost "fragments/a"
    (VObj [("custom", VObj [("stage", VStr "${opt:stage}"); ("name", VStr "plain")])])
  = VObj [("custom", VObj [("stage", VStr "${opt:stage}"); ("name", VStr "plain")])].
Proof.
  apply substituteDirname_without_dirname.
  intros property text matches m Hin Hvalue Hmatches Hm.
  cbn in Hin. destruct Hin as [<-|[<-|[]]]; cbn in Hvalue; injection Hvalue as <-;
    vm_compute in Hmatches; [|discriminate Hmatches].
  injection Hmatches as <-. destruct Hm as [<-|[]]. discriminate.
Defined.

(** X10: where the value of a property holds one placeholder of the
    variable [dirname] and the fragment's directory holds no [$], the value
    written back is the value with the first occurrence of the placeholder's
    text made the directory: what stands before it and after it is kept. *)
Theorem single_dirname_placeholder (h : Host) (importDir : string) (config : value)
    (property : Property) (text before after : string) (matches : list Match) (m : Match) :
  prop_value property = VStr text ->
  matchesVariableSyntax h text = true ->
  getMatches h text = Some matches ->
  filter (fun m => String.eqb (variable m) "dirname") matches = [m] ->
  Str.find_sub (match_text m) text = Some (before, after) ->
  Str.has_char "$" importDir = false ->
  text = before ++ match_text m ++ after
  /\ substituteProperty h importDir config property
     = set (prop_path property) (VStr (before ++ importDir ++ after)) config.
Proof.
  intros Hvalue Hsyntax Hmatches Hone Hfind Hliteral.
  destruct (replace_first_occurrence text (match_text m) importDir before after
              Hfind Hliteral) as [Htext Hreplace].
  split; [exact Htext|].
  unfold substituteProperty. rewrite Hvalue, Hsyntax, Hmatches.
  rewrite (substituteMatches_single importDir (prop_path property) text matches m config Hone).
  now rewrite Hreplace.
Qed.

Lemma single_dirname_placeholder_witness :
  substituteProperty projectHost "fragments/a"
    (VObj [("custom", VObj [("stage", VStr "${dirname}/${opt:stage}")])])
    {| prop_path := [KName "custom"; KName "stage"];
       prop_value := VStr "${dirname}/${opt:stage}" |}
  = VObj [("custom", VObj [("stage", VStr "fragments/a/${opt:stage}")])].
Proof.
  exact (proj2 (single_dirname_placeholder projectHost "fragments/a"
                  (VObj [("custom", VObj [("stage", VStr "${dirname}/${opt:stage}")])])
                  {| prop_path := [KName "custom"; KName "stage"];
                     prop_value := VStr "${dirname}/${opt:stage}" |}
                  "${dirname}/${opt:stage}" "" "/${opt:stage}"
                  [{| match_text := "${dirname}"; variable := "dirname" |};
                   {| match_text := "${opt:stage}"; variable := "opt:stage" |}]
                  {| match_text := "${dirname}"; variable := "dirname" |}
                  eq_refl eq_refl eq_refl eq_refl eq_refl eq_refl)).
Defined.

Lemma get_substitution_app (matched before after literal template : string) :
  Str.has_char "$" literal = false ->
  Str.get_substitution matched before after (literal ++ template)
  = literal ++ Str.get_substitution matched before after template.
Proof.
  unfold Str.has_char. induction literal as [|c t IH]; [reflexivity|].
  cbn [list_ascii_of_string existsb]. intros H. apply orb_false_iff in H as [Hc Ht].
  assert (Hne : c <> "$"%char).
  { intros ->. discriminate Hc. }
  cbn [append]. rewrite <- (IH Ht).
  destruct c as [[|] [|] [|] [|] [|] [|] [|] [|]]; try reflexivity.
  now elim Hne.
Qed.

(** X11: the directory is the replacement string of [replace], so a
    [$&] in it stands for the placeholder's text and a [$$] for one [$]:
    where the directory is [a$&b], the placeholder is replaced by [a], the
    placeholder again and [b]. *)
Theorem dollar_in_directory_is_a_pattern (path : list key) (text before after : string)
    (matches : list Match) (m : Match) (a b : string) (config : value) :
  filter (fun m => String.eqb (variable m) DIRNAME) matches = [m] ->
  Str.find_sub (match_text m) text = Some (before, after) ->
  Str.has_char "$" a = false ->
  Str.has_char "$" b = false ->
  substituteMatches (a ++ "$&" ++ b) path text matches config
  = set path (VStr (before ++ (a ++ match_text m ++ b) ++ after)) config
  /\ substituteMatches (a ++ "$$" ++ b) path text matches config
     = set path (VStr (before ++ (a ++ "$" ++ b) ++ after)) config.
Proof.
  intros Hone Hfind Ha Hb.
  rewrite !(substituteMatches_single _ path text matches m config Hone).
  unfold Str.replace. rewrite Hfind.
  rewrite (get_substitution_app _ _ _ a ("$&" ++ b) Ha),
    (get_substitution_app _ _ _ a ("$$" ++ b) Ha).
  assert (Hamp : forall matched x y t,
            Str.get_substitution matched x y ("$&" ++ t)
            = matched ++ Str.get_substitution matched x y t) by reflexivity.
  assert (Hdollar : forall matched x y t,
            Str.get_substitution matched x y ("$$" ++ t)
            = "$" ++ Str.get_substitution matched x y t) by reflexivity.
  rewrite Hamp, Hdollar, !(get_substitution_literal _ _ _ _ Hb).
  split; reflexivity.
Qed.

Lemma dollar_in_directory_is_a_pattern_witness :
  substituteMatches ("build" ++ "$&" ++ "") [KName "dir"] "${dirname}/x"
    [{| match_text := "${dirname}"; variable := "dirname" |}]
    (VObj [("dir", VStr "${dirname}/x")])
  = VObj [("dir", VStr "build${dirname}/x")].
Proof.
  exact (proj1 (dollar_in_directory_is_a_pattern [KName "dir"] "${dirname}/x" "" "/x"
                  [{| match_text := "${dirname}"; variable := "dirname" |}]
                  {| match_text := "${dirname}"; variable := "dirname" |}
                  "build" "" (VObj [("dir", VStr "${dirname}/x")])
                  eq_refl eq_refl eq_refl eq_refl)).
Defined.

Lemma nth_error_put_item (i : nat) (v : value) (items : list value) :
  nth_error (put_item i v items) i = Some v.
Proof.
  revert items. induction i as [|i IH]; intros [|x rest]; cbn [put_item nth_error];
    try reflexivity; apply IH.
Qed.

Lemma leafAt_put_key (k : key) (rest : list key) (child o : value) (old : value) :
  leafAt [k] o = Some old ->
  leafAt (k :: rest) (put_key k child o) = leafAt rest child.
Proof.
  cbn [leafAt]. destruct o as [ | | b | n | s | items | fields]; try discriminate.
  - destruct k as [name|i]; [discriminate|]. cbn [put_key]. intros _.
    now rewrite nth_error_put_item.
  - cbn [put_key]. intros _. now rewrite lookup_assign_same.
Qed.

(** X12: [set] at a path that leads to a value of the document puts the
    new value there: the path then leads to it. *)
Theorem set_overwrites_leaf (path : list key) (v old o : value) :
  path <> [] ->
  leafAt path o = Some old ->
  leafAt path (set path v o) = Some v.
Proof.
  revert o. induction path as [|k rest IH]; intros o Hne Hleaf; [congruence|].
  destruct rest as [|k' rest'].
  - cbn [set]. rewrite (leafAt_put_key k [] v o old Hleaf). reflexivity.
  - assert (Hchild : exists child, leafAt [k] o = Some child
                                   /\ get_key k o = child
                                   /\ leafAt (k' :: rest') child = Some old).
    { cbn [leafAt] in Hleaf |- *.
      destruct o as [ | | b | n | s | items | fields]; try discriminate.
      - destruct k as [name|i]; [discriminate|]. cbn [get_key].
        destruct (nth_error items i) as [child|] eqn:E; [|discriminate].
        exists child. repeat split; [|exact Hleaf].
        now apply nth_error_nth.
      - cbn [get_key get].
        destruct (lookup (key_name k) fields) as [child|] eqn:E; [|discriminate].
        exists child. repeat split; exact Hleaf. }
    destruct Hchild as [child [Hk [Hget Hrest]]].
    change (set (k :: k' :: rest') v o)
      with (put_key k (set (k' :: rest') v (container_for (k' :: rest') (get_key k o))) o).
    rewrite (leafAt_put_key k (k' :: rest') _ o child Hk). rewrite Hget.
    assert (Hcontainer : container_for (k' :: rest') child = child).
    { cbn [leafAt] in Hrest. destruct child; try discriminate; reflexivity. }
    rewrite Hcontainer. apply IH; [discriminate|exact Hrest].
Qed.

Lemma set_overwrites_leaf_witness :
  leafAt [KName "custom"; KName "stage"]
    (set [KName "custom"; KName "stage"] (VStr "dev")
       (VObj [("custom", VObj [("stage", VStr "${opt:stage}")])]))
  = Some (VStr "dev").
Proof.
  apply (set_overwrites_leaf [KName "custom"; KName "stage"] (VStr "dev")
           (VStr "${opt:stage}")).
  - discriminate.
  - reflexivity.
Defined.

(* ================================================================= *)
(** * More on the plugins and on the activation *)

Lemma value_eqb_eq : forall a b : value, value_eqb a b = true -> a = b.
Proof.
  fix IH 1. intros [ | | x | x | x | xs | xs] [ | | y | y | y | ys | ys];
    cbn [value_eqb]; try discriminate; intros H; try reflexivity.
  - f_equal. now apply Bool.eqb_prop.
  - f_equal. now apply Nat.eqb_eq.
  - f_equal. now apply String.eqb_eq.
  - f_equal. revert ys H. induction xs as [|x xs IHxs]; intros [|y ys] H;
      try discriminate; [reflexivity|].
    apply andb_true_iff in H as [Hx Hxs]. f_equal; [now apply IH|now apply IHxs].
  - f_equal. revert ys H. induction xs as [|[k x] xs IHxs]; intros [|[k' y] ys] H;
      try discriminate; [reflexivity|].
    apply andb_true_iff in H as [H Hxs]. apply andb_true_iff in H as [Hk Hx].
    apply String.eqb_eq in Hk. subst k'. f_equal; [|now apply IHxs].
    f_equal. now apply IH.
Qed.

Lemma existsb_value_eqb (x : value) (values : list value) :
  existsb (value_eqb x) values = true <-> In x values.
Proof.
  rewrite existsb_exists. split.
  - intros [y [Hin Heq]]. apply value_eqb_eq in Heq. now subst.
  - intros Hin. exists x. split; [exact Hin|apply value_eqb_refl].
Qed.

Lemma difference_nil (array : list value) : difference array [] = array.
Proof.
  unfold difference. induction array as [|x rest IH]; [reflexivity|].
  simpl. f_equal. exact IH.
Qed.

Lemma handedOver_pluginEvents (h : Host) (names : list value) :
  handedOver (pluginEvents h names) = [names].
Proof.
  unfold pluginEvents, handedOver.
  destruct (pluginManager h) as [|resolveServicePlugins]; [reflexivity|].
  cbn [flat_map app]. f_equal.
  induction (resolveServicePlugins names) as [|[i|] rest IH]; [reflexivity| |]; exact IH.
Qed.

(** X13: [loadImportedPlugins] leaves the root document and the pending
    work as they are and hands the plugin manager one list, through either
    of its interfaces: the plugins of the root document that are not among
    the original ones, in the order of the document.  The list has no
    plugin twice unless the document has, and is the whole list of the
    document when there were no original plugins. *)
Theorem loadImportedPlugins_hands_over_new_plugins (h : Host) (originalPlugins : list value)
    (w : World) :
  let w' := loadImportedPlugins h originalPlugins w in
  service w' = service w /\ promises w' = promises w
  /\ waiting w' = waiting w /\ queue w' = queue w
  /\ exists names keep,
       handedOver (events w') = (handedOver (events w) ++ [names])%list
       /\ names = filter keep (pluginsOf (service w))
       /\ (forall x, In x names <-> In x (pluginsOf (service w)) /\ ~ In x originalPlugins)
       /\ (NoDup (pluginsOf (service w)) -> NoDup names)
       /\ (originalPlugins = [] -> names = pluginsOf (service w)).
Proof.
  cbn zeta. rewrite loadImportedPlugins_eq. cbn [service promises waiting queue events].
  repeat (split; [reflexivity|]).
  exists (difference (pluginsOf (service w)) originalPlugins).
  exists (fun x => negb (existsb (value_eqb x) originalPlugins)).
  destruct (difference_spec (pluginsOf (service w)) originalPlugins) as [Hin [Hnodup Heq]].
  split; [|split; [exact Heq|split; [|split; [exact Hnodup|]]]].
  - unfold handedOver at 1. rewrite flat_map_app.
    fold (handedOver (events w)). fold (handedOver (pluginEvents h
      (difference (pluginsOf (service w)) originalPlugins))).
    now rewrite handedOver_pluginEvents.
  - intros x. rewrite Hin. split; intros [Hx Hnot]; (split; [exact Hx|]).
    + intros Hold. apply existsb_value_eqb in Hold. congruence.
    + destruct (existsb (value_eqb x) originalPlugins) eqn:E; [|reflexivity].
      apply existsb_value_eqb in E. contradiction.
  - intros ->. apply difference_nil.
Qed.

Lemma loadImportedPlugins_hands_over_new_plugins_witness :
  handedOver (events (loadImportedPlugins projectHost []
                        (initial (VObj [("plugins",
                                         VArr [VStr "serverless-import-config-plugin";
                                               VStr "fragment-plugin"])]))))
  = [[VStr "serverless-import-config-plugin"; VStr "fragment-plugin"]].
Proof.
  destruct (loadImportedPlugins_hands_over_new_plugins projectHost []
              (initial (VObj [("plugins",
                               VArr [VStr "serverless-import-config-plugin";
                                     VStr "fragment-plugin"])])))
    as [_ [_ [_ [_ [names [keep [Hhanded [_ [_ [_ Hall]]]]]]]]]].
  rewrite Hhanded, (Hall eq_refl). reflexivity.
Defined.

(** X14: the constructor leaves the root document as it is.  Where
    line 43 can copy the plugins (they are absent, [null], an array or a
    string) it queues one resolution for every declaration of the root, in
    the order of the declarations and a declaration that is repeated as
    often as it is repeated, each from the directory the process runs in.
    Where the plugins are a boolean, a number or an object line 43 throws:
    nothing is queued and the plugin manager is not called. *)
Theorem constructor_starts_each_import (h : Host) (root : value) :
  service (constructor h root) = root
  /\ (sliceable (get "plugins" root) = true ->
      (exists w, construct h root = Ok w /\ constructor h root = w)
      /\ resolutionsQueued (queue (constructor h root))
         = map (fun options => (fst (realOptions options), REALPATH h)) (getImports root))
  /\ (sliceable (get "plugins" root) = false ->
      (exists message, construct h root = Throw message)
      /\ queue (constructor h root) = []
      /\ events (constructor h root) = []).
Proof.
  split; [exact (proj1 (constructor_events h root))|]. split.
  - intros Hplugins. destruct (constructor_sliceable h root Hplugins) as [Hok Hw].
    split; [eexists; split; [exact Hok|exact Hw]|].
    rewrite Hw, loadImportedPlugins_eq. cbn [queue].
    unfold startImports.
    pose proof (importConfigs_queues h root (REALPATH h) (initial root)) as [Hq _].
    destruct (importConfigs h root (REALPATH h) (initial root)) as [imports w1].
    cbn [newPromise snd] in *.
    match goal with |- context [await imports ?f ?w0] =>
      destruct (await_queues imports f w0 eq_refl) as [Hq' _] end.
    rewrite Hq', app_nil_r. cbn [queue]. exact Hq.
  - intros Hplugins. destruct (constructor_throws h root Hplugins) as [Hthrow Hw].
    split; [exact Hthrow|]. now rewrite Hw.
Qed.

Lemma constructor_starts_each_import_witness :
  resolutionsQueued (queue (constructor projectHost projectRoot))
  = [(VStr "fragments/a", "/proj")]
  /\ queue (constructor projectHost objectPluginsRoot) = []
  /\ events (constructor projectHost objectPluginsRoot) = [].
Proof.
  split.
  - exact (proj2 (proj1 (proj2 (constructor_starts_each_import projectHost projectRoot))
                    eq_refl)).
  - exact (proj2 (proj2 (proj2 (constructor_starts_each_import projectHost
                                  objectPluginsRoot)) eq_refl)).
Defined.

(** X15: when a fragment has been loaded and prepared, the resolution
    of every import it declares is queued from the directory of the
    fragment's file, and a resolution that is resumed with its path
    resolves it from the base directory it was queued with. *)
Theorem nested_imports_resolve_from_fragment_directory (h : Host) (importPath : string)
    (inputs : value) (self : pid) (w : World) (config : value) :
  rbind (loadConfig h importPath inputs) (prepareImportedConfig h importPath) = Ok config ->
  noResolutionWaits w ->
  resolutionsQueued (queue (importResolved h importPath inputs self w))
  = (resolutionsQueued (queue w)
     ++ map (fun options => (fst (realOptions options), path_dirname h importPath))
            (getImports config))%list
  /\ (forall basedir p nested w0,
        events (resume h (AfterPopulateProperty basedir nested) (Fulfilled (VStr p)) w0)
        = (events w0
           ++ [Resolving p basedir (fst (resolvePopulatedPath h p basedir []))])%list).
Proof.
  intros Hconfig Hnone. split.
  - exact (proj2 (proj2 (importResolved_merges_at_once h importPath inputs self w config
                           Hconfig)) Hnone).
  - intros basedir p nested w0. cbn [resume].
    destruct (resolvePopulatedPath h p basedir []) as [probes r]. cbn [fst].
    now rewrite (proj2 (settle_outside _ _ _)).
Qed.

Lemma nested_imports_resolve_from_fragment_directory_witness :
  resolutionsQueued
    (queue (importResolved projectHost "fragments/a/serverless.yml" (VObj []) 0
              (snd (newPromise (Pending 0) (initial projectRoot)))))
  = [(VStr "./nested.yml", "fragments/a")].
Proof.
  exact (proj1 (nested_imports_resolve_from_fragment_directory projectHost
                  "fragments/a/serverless.yml" (VObj []) 0
                  (snd (newPromise (Pending 0) (initial projectRoot)))
                  _ eq_refl eq_refl)).
Defined.

(* ================================================================= *)
(** * More on whole activations *)

Ltac evaluate_activation :=
  cbn -[pluginEvents difference pluginsOf resolvePopulatedPath importResolved merge
        realOptions].

Ltac evaluate_activation' :=
  cbn -[pluginEvents difference pluginsOf resolvePopulatedPath importResolved merge].

(** X17: a root with one import, whose fragment is resolved, loaded and
    prepared and declares no import of its own: the activation logs the
    import, merges the fragment into the root once and fulfils both the
    promise of [importConfigs] and the one [catch] returns; nothing is left
    to run. *)
Theorem single_import_is_merged (h : Host) (root options inputs config : value)
    (raw p importPath : string) (probes : list probe) :
  sliceable (get "plugins" root) = true ->
  getImports root = [options] ->
  realOptions options = (VStr raw, inputs) ->
  populateService h = Ok tt ->
  populateProperty h raw = Ok p ->
  resolvePopulatedPath h p (REALPATH h) [] = (probes, Ok importPath) ->
  rbind (loadConfig h importPath inputs) (prepareImportedConfig h importPath) = Ok config ->
  getImports config = [] ->
  forall fuel, 8 <= fuel ->
  let w := activate h fuel root in
  queue w = [] /\ waiting w = []
  /\ service w = merge root config
  /\ events w = (pluginEvents h []
                 ++ [Resolving p (REALPATH h) probes;
                     CliLog ("Importing " ++ importPath);
                     Merged importPath])%list
  /\ outcomeIn w (fst (fst (startImports h root))) = Some (Settled (Fulfilled VUndef))
  /\ outcomeIn w (snd (fst (startImports h root))) = Some (Settled (Fulfilled VUndef)).
Proof.
  intros Hplugins Himports Hoptions Hservice Hproperty Hresolve Hconfig Hnone fuel Hfuel.
  do 8 (destruct fuel as [|fuel]; [lia|]).
  unfold activate.
  rewrite (proj2 (constructor_sliceable h root Hplugins)), loadImportedPlugins_eq.
  unfold startImports, importConfigs, mapImportConfig, importConfig. rewrite Himports, Hoptions.
  evaluate_activation. rewrite Hservice.
  evaluate_activation. rewrite Hproperty.
  evaluate_activation. rewrite Hresolve.
  evaluate_activation.
  unfold importResolved. rewrite Hconfig. unfold importConfigs. rewrite Hnone.
  evaluate_activation.
  rewrite difference_self.
  destruct fuel; cbn -[pluginEvents merge]; rewrite <- !app_assoc; repeat split.
Qed.

Lemma single_import_is_merged_witness :
  service (activate projectHost 8 oneImportRoot) = merge oneImportRoot (VObj [])
  /\ events (activate projectHost 8 oneImportRoot)
     = [LoadServicePlugins [];
        Resolving "fragments/b.yml" "/proj" [StatSync "fragments/b.yml"];
        CliLog "Importing fragments/b.yml";
        Merged "fragments/b.yml"].
Proof.
  destruct (single_import_is_merged projectHost oneImportRoot (VStr "fragments/b.yml")
              (VObj []) (VObj []) "fragments/b.yml" "fragments/b.yml" "fragments/b.yml"
              [StatSync "fragments/b.yml"]
              eq_refl eq_refl eq_refl eq_refl eq_refl eq_refl eq_refl eq_refl 8 (le_n 8))
    as [_ [_ [Hservice [Hevents _]]]].
  split; [exact Hservice|exact Hevents].
Defined.

(** X18: of two imports of the root the first fails to resolve and the
    second is resolved, loaded and prepared: the second fragment is merged
    all the same, and the failure of the first is written with
    [console.error] and rejects the promise [catch] returns. *)
Theorem failing_import_leaves_sibling_merged (h : Host) (root config : value)
    (rawA rawB pA pB importPath message : string) (probesA probesB : list probe) :
  sliceable (get "plugins" root) = true ->
  getImports root = [VStr rawA; VStr rawB] ->
  populateService h = Ok tt ->
  populateProperty h rawA = Ok pA ->
  populateProperty h rawB = Ok pB ->
  resolvePopulatedPath h pA (REALPATH h) [] = (probesA, Throw message) ->
  resolvePopulatedPath h pB (REALPATH h) [] = (probesB, Ok importPath) ->
  rbind (loadConfig h importPath (VObj [])) (prepareImportedConfig h importPath) = Ok config ->
  getImports config = [] ->
  forall fuel, 12 <= fuel ->
  let w := activate h fuel root in
  queue w = [] /\ waiting w = []
  /\ service w = merge root config
  /\ In (Merged importPath) (events w)
  /\ In (ConsoleError message) (events w)
  /\ outcomeIn w (snd (fst (startImports h root))) = Some (Settled (Rejected message)).
Proof.
  intros Hplugins Himports Hservice HpropertyA HpropertyB HresolveA HresolveB Hconfig Hnone
    fuel Hfuel.
  do 12 (destruct fuel as [|fuel]; [lia|]).
  unfold activate.
  rewrite (proj2 (constructor_sliceable h root Hplugins)), loadImportedPlugins_eq.
  unfold startImports, importConfigs. rewrite Himports.
  evaluate_activation'. rewrite Hservice.
  evaluate_activation'. rewrite HpropertyA, HpropertyB.
  evaluate_activation'. rewrite HresolveA.
  evaluate_activation'. rewrite HresolveB.
  evaluate_activation'.
  unfold importResolved. rewrite Hconfig. unfold importConfigs. rewrite Hnone.
  evaluate_activation'.
  rewrite difference_self.
  destruct fuel; cbn -[pluginEvents merge]; rewrite <- !app_assoc; repeat split;
    apply in_or_app; right; cbn [In app]; tauto.
Qed.

Lemma failing_import_leaves_sibling_merged_witness :
  service (activate projectHost 12 siblingsRoot) = merge siblingsRoot (VObj [])
  /\ In (Merged "fragments/b.yml") (events (activate projectHost 12 siblingsRoot))
  /\ outcomeIn (activate projectHost 12 siblingsRoot) 6
     = Some (Settled (Rejected "Cannot import missing.yml: the given file doesn't exist")).
Proof.
  destruct (failing_import_leaves_sibling_merged projectHost siblingsRoot (VObj [])
              "missing.yml" "fragments/b.yml" "missing.yml" "fragments/b.yml"
              "fragments/b.yml"
              "Cannot import missing.yml: the given file doesn't exist"
              [StatSync "missing.yml"; ResolveModule "missing.yml" "/proj"]
              [StatSync "fragments/b.yml"]
              eq_refl eq_refl eq_refl eq_refl eq_refl eq_refl eq_refl eq_refl eq_refl
              12 (le_n 12))
    as [_ [_ [Hservice [Hmerged [_ Hcaught]]]]].
  split; [exact Hservice|]. split; [exact Hmerged|exact Hcaught].
Defined.

(** X19: when the host cannot populate the service, or cannot populate
    the path of the import, the one import of the root is given up before
    anything is probed: the error is written with [console.error] and
    rejects the promise [catch] returns, and the root document is left as
    it is. *)
Theorem unpopulated_import_is_given_up (h : Host) (root options inputs : value)
    (raw message : string) :
  sliceable (get "plugins" root) = true ->
  getImports root = [options] ->
  realOptions options = (VStr raw, inputs) ->
  populateService h = Throw message
  \/ (populateService h = Ok tt /\ populateProperty h raw = Throw message) ->
  forall fuel, 6 <= fuel ->
  let w := activate h fuel root in
  queue w = [] /\ waiting w = []
  /\ service w = root
  /\ events w = (pluginEvents h [] ++ [ConsoleError message])%list
  /\ outcomeIn w (snd (fst (startImports h root))) = Some (Settled (Rejected message)).
Proof.
  intros Hplugins Himports Hoptions Hfail fuel Hfuel.
  do 6 (destruct fuel as [|fuel]; [lia|]).
  unfold activate.
  rewrite (proj2 (constructor_sliceable h root Hplugins)), loadImportedPlugins_eq.
  unfold startImports, importConfigs, mapImportConfig, importConfig. rewrite Himports, Hoptions.
  destruct Hfail as [Hservice|[Hservice Hproperty]].
  - evaluate_activation. rewrite Hservice.
    evaluate_activation. rewrite difference_self.
    destruct fuel; cbn -[pluginEvents]; repeat split.
  - evaluate_activation. rewrite Hservice.
    evaluate_activation. rewrite Hproperty.
    evaluate_activation. rewrite difference_self.
    destruct fuel; cbn -[pluginEvents]; repeat split.
Qed.

Lemma unpopulated_import_is_given_up_witness :
  events (activate brokenVariablesHost 6 oneImportRoot)
  = [LoadServicePlugins []; ConsoleError "Invalid variable reference syntax"]
  /\ service (activate brokenVariablesHost 6 oneImportRoot) = oneImportRoot.
Proof.
  destruct (unpopulated_import_is_given_up brokenVariablesHost oneImportRoot
              (VStr "fragments/b.yml") (VObj []) "fragments/b.yml"
              "Invalid variable reference syntax"
              eq_refl eq_refl eq_refl (or_introl eq_refl) 6 (le_n 6))
    as [_ [_ [Hservice [Hevents _]]]].
  split; [exact Hevents|exact Hservice].
Defined.

Lemma mergedPaths_app (a b : list event) :
  mergedPaths (a ++ b) = (mergedPaths a ++ mergedPaths b)%list.
Proof. unfold mergedPaths. apply flat_map_app. Qed.

Lemma mergedCount_paths (evs : list event) :
  mergedCount evs = List.length (mergedPaths evs).
Proof.
  unfold mergedCount, mergedPaths. induction evs as [|e rest IH]; [reflexivity|].
  destruct e; cbn [filter flat_map app List.length]; congruence.
Qed.

Lemma mergedPaths_pluginEvents (h : Host) (names : list value) :
  mergedPaths (pluginEvents h names) = [].
Proof.
  unfold pluginEvents, mergedPaths.
  destruct (pluginManager h) as [|resolveServicePlugins]; [reflexivity|].
  cbn [flat_map app]. induction (resolveServicePlugins names) as [|[i|] rest IH];
    [reflexivity| |]; exact IH.
Qed.

Section MergeOnly.
Variable h : Host.

Lemma mergedBetween_same (w w' : World) : sameOutside w w' -> mergedBetween h [] w w'.
Proof.
  intros [Hs He]. unfold mergedBetween. cbn [map fold_left].
  rewrite Hs, He, app_nil_r. repeat split. constructor.
Qed.

Lemma mergedBetween_quiet (w w' : World) (e : event) :
  service w' = service w -> events w' = (events w ++ [e])%list -> mergedPaths [e] = [] ->
  mergedBetween h [] w w'.
Proof.
  intros Hs He Hz. unfold mergedBetween. cbn [map fold_left].
  rewrite Hs, He, mergedPaths_app, Hz. repeat split. constructor.
Qed.

Lemma resume_merges (f : frame) (o : outcome) (w : World) :
  exists merges, mergedBetween h merges w (resume h f o w).
Proof.
  destruct f as [rawPath basedir self|basedir self|inputs self|all|self|self];
    destruct o as [v|m]; cbn [resume];
    try (exists []; apply mergedBetween_same;
         auto using settle_outside, enqueue_outside, allElement_outside; fail).
  - exists []. destruct rawPath; apply mergedBetween_same; apply enqueue_outside.
  - exists []. destruct rawPath; apply mergedBetween_same; apply settle_outside.
  - destruct v as [ | | b | n | pathToImport | items | fields];
      try (exists []; apply mergedBetween_same; apply settle_outside).
    destruct (resolvePopulatedPath h pathToImport basedir []) as [probes r].
    exists []. eapply mergedBetween_quiet;
      [now rewrite (proj1 (settle_outside _ _ _))
      |now rewrite (proj2 (settle_outside _ _ _))
      |reflexivity].
  - destruct v as [ | | b | n | importPath | items | fields];
      try (exists []; apply mergedBetween_same; apply settle_outside).
    destruct (rbind (loadConfig h importPath inputs) (prepareImportedConfig h importPath))
      as [config|cause] eqn:Hconfig.
    + destruct (importResolved_merges_at_once h importPath inputs self w config Hconfig)
        as [Hs [He _]].
      exists [(importPath, config)]. unfold mergedBetween. cbn [map fold_left fst snd].
      rewrite Hs, He, mergedPaths_app. repeat split.
      constructor; [|constructor]. now exists inputs.
    + unfold importResolved. rewrite Hconfig.
      exists []. eapply mergedBetween_quiet;
        [now rewrite (proj1 (settle_outside _ _ _))
        |now rewrite (proj2 (settle_outside _ _ _))
        |reflexivity].
  - exists []. eapply mergedBetween_quiet;
      [now rewrite (proj1 (settle_outside _ _ _))
      |now rewrite (proj2 (settle_outside _ _ _))
      |reflexivity].
Qed.

Lemma run_merges (fuel : nat) (w : World) :
  exists merges, mergedBetween h merges w (run h fuel w).
Proof.
  revert w. induction fuel as [|fuel IH]; intros w; cbn [run].
  - exists []. apply mergedBetween_same, sameOutside_refl.
  - unfold step. destruct (queue w) as [|[f o] rest].
    + exists []. apply mergedBetween_same, sameOutside_refl.
    + match goal with |- context [resume h f o ?w0] =>
        destruct (resume_merges f o w0) as [m1 [Hs1 [He1 Hp1]]];
        destruct (IH (resume h f o w0)) as [m2 [Hs2 [He2 Hp2]]] end.
      exists (m1 ++ m2)%list. unfold mergedBetween.
      rewrite !map_app, fold_left_app.
      cbn [service events] in *. rewrite Hs2, Hs1, He2, He1, app_assoc.
      repeat split. now apply Forall_app.
Qed.

End MergeOnly.

(** X20: however far an activation has run, the root document is the
    original one with fragments merged into it one after the other and
    nothing else done to it: one fragment for every merge, in the order of
    the merges, each the document that was loaded and prepared from the path
    that was merged. *)
Theorem document_changes_by_merges_only (h : Host) (fuel : nat) (root : value) :
  exists merges : list (string * value),
    service (activate h fuel root) = fold_left merge (map snd merges) root
    /\ mergedPaths (events (activate h fuel root)) = map fst merges
    /\ Forall (preparedFrom h) merges
    /\ mergedCount (events (activate h fuel root)) = List.length merges.
Proof.
  unfold activate.
  destruct (run_merges h fuel (constructor h root)) as [merges [Hs [He Hp]]].
  exists merges.
  destruct (constructor_events h root) as [Hroot Hevents].
  assert (Hnone : mergedPaths (events (constructor h root)) = []).
  { rewrite Hevents. destruct (sliceable (get "plugins" root)); [|reflexivity].
    apply mergedPaths_pluginEvents. }
  rewrite Hnone in He. cbn [app] in He. rewrite Hroot in Hs.
  repeat split; try assumption.
  now rewrite mergedCount_paths, He, length_map.
Qed.

Lemma document_changes_by_merges_only_witness :
  exists config,
    service (activate projectHost 8 oneImportRoot) = merge oneImportRoot config
    /\ preparedFrom projectHost ("fragments/b.yml", config).
Proof.
  destruct (document_changes_by_merges_only projectHost 8 oneImportRoot)
    as [merges [Hservice [Hpaths [Hprepared _]]]].
  vm_compute in Hpaths.
  destruct merges as [|[importPath config] [|second rest]]; try discriminate Hpaths.
  injection Hpaths as <-. exists config. split; [exact Hservice|].
  now inversion Hprepared.
Defined.
